(** * whatsapp-automation: the operator console's job-progress engine

    A shallow embedding of the React front end (App.jsx, FileDropzone.jsx,
    Toast.jsx).  Component state held by [useState] becomes a record, every
    handler becomes a function from the state before to the state after
    together with the effects it performs (network requests, console output,
    alerts), and the answers of the outside world (what a [fetch] resolves
    to) are arguments of the handler. *)

From Stdlib Require Import String Ascii List ZArith Lia Bool Arith DecimalString.
Import ListNotations.

Open Scope list_scope.
Open Scope string_scope.

(** ** JavaScript strings

    A string is the sequence of bytes of its UTF-8 encoding.  Searching for
    a well-formed needle in a well-formed text gives the same answer on
    UTF-8 bytes as on UTF-16 code units, and the only separators and needles
    the program uses are ASCII words and the two marks U+2713 and U+2717. *)
Module JsString.

(** [c.toLowerCase()] on one character.  Only the ASCII letters are
    mapped, so the function is JavaScript's on ASCII text ([ascii_only]
    below) and differs from it on other cased characters: JavaScript maps
    U+00C9 to U+00E9, U+212A to k, and so on.  Outside ASCII, JavaScript's
    lower-casing yields non-ASCII characters, with two exceptions: U+212A
    yields k, and U+0130 yields i followed by U+0307.  No needle of
    [classify] and no format of [App]'s two lists contains k, and in the
    second case i is never followed by the next letter of a needle or of a
    format.  A search for one of these ASCII words in the lower-cased text,
    and the membership of a lower-cased extension in one of [App]'s lists,
    are therefore decided by the ASCII letters alone.  For other lists the
    statements about extensions are made for ASCII extensions. *)
Definition lower_ascii (c : ascii) : ascii :=
  let n := nat_of_ascii c in
  if (65 <=? n)%nat && (n <=? 90)%nat then ascii_of_nat (n + 32) else c.

(** [s.toLowerCase()] *)
Fixpoint toLowerCase (s : string) : string :=
  match s with
  | EmptyString => EmptyString
  | String c s' => String (lower_ascii c) (toLowerCase s')
  end.

Definition upper_ascii (c : ascii) : ascii :=
  let n := nat_of_ascii c in
  if (97 <=? n)%nat && (n <=? 122)%nat then ascii_of_nat (n - 32) else c.

(** [s.toUpperCase()] *)
Fixpoint toUpperCase (s : string) : string :=
  match s with
  | EmptyString => EmptyString
  | String c s' => String (upper_ascii c) (toUpperCase s')
  end.

(** [s.includes(needle)]: [needle] occurs in [s] as a substring. *)
Fixpoint includes (s needle : string) : bool :=
  String.prefix needle s
  || match s with
     | EmptyString => false
     | String _ s' => includes s' needle
     end.

(** [s.split(sep)] for a one-character separator: the pieces between the
    occurrences of [sep], never an empty array. *)
Fixpoint split (sep : ascii) (s : string) : list string :=
  match s with
  | EmptyString => [EmptyString]
  | String c s' =>
      if Ascii.eqb c sep then EmptyString :: split sep s'
      else match split sep s' with
           | [] => [String c EmptyString]
           | piece :: pieces => String c piece :: pieces
           end
  end.

(** [arr.pop()] read for its value on the arrays [split] returns, which
    always hold at least one piece. *)
Definition pop (arr : list string) : string := last arr EmptyString.

(** [arr.join(sep)] *)
Fixpoint join (sep : string) (arr : list string) : string :=
  match arr with
  | [] => EmptyString
  | [x] => x
  | x :: rest => x ++ sep ++ join sep rest
  end.

(** The integers JavaScript's numbers hold exactly,
    [Number.isSafeInteger]: magnitude below 2^53. *)
Definition safe_integer (n : Z) : Prop := (- 2 ^ 53 < n < 2 ^ 53)%Z.

(** A number inside a template literal.  For a safe integer this is its
    decimal digits, which is what the function gives for every [n];
    JavaScript rounds larger integers and prints those from 10^21 on in
    exponent form, so statements about the printed text are made for safe
    integers.  ([response.status] is an unsigned short.) *)
Definition number_to_string (n : Z) : string :=
  NilZero.string_of_int (Z.to_int n).

(** A text of ASCII characters only. *)
Fixpoint ascii_only (s : string) : bool :=
  match s with
  | EmptyString => true
  | String c s' => (nat_of_ascii c <? 128)%nat && ascii_only s'
  end.

(** Two texts that differ at most in the case of their ASCII letters. *)
Definition eq_ignoring_case (a b : string) : Prop :=
  toLowerCase a = toLowerCase b.

(** [needle] occurs in [s]. *)
Definition occurs (needle s : string) : Prop :=
  exists before after, s = before ++ needle ++ after.

(** Some substring of [s] is [needle] up to the case of letters. *)
Definition occurs_ignoring_case (needle s : string) : Prop :=
  exists before mid after,
    s = before ++ mid ++ after /\ eq_ignoring_case mid needle.

End JsString.

Import JsString.

(** ** The browser's values the components exchange *)
Module Browser.

(** A [File] as the handlers read it: [file.name], [file.size],
    [file.type]. *)
Record File := { name : string; size : Z; type : string }.

(** What [await fetch(...)] followed by [await response.json()] can give:
    the request itself rejects (a transport error), or it resolves to a
    response with its [ok] flag, [status] (an unsigned short in the
    browser), [statusText], and a body that [json()] either fails to decode
    (with an error message) or decodes. *)
Inductive Response (A : Type) : Type :=
| Rejected (error : string)
| Resolved (ok : bool) (status : Z) (statusText : string) (json : string + A).

Arguments Rejected {A} error.
Arguments Resolved {A} ok status statusText json.

(** [value || fallback] on a string that may be undefined: the empty
    string is falsy too. *)
Definition or_else (value : option string) (fallback : string) : string :=
  match value with
  | Some v => if (v =? "")%string then fallback else v
  | None => fallback
  end.

(** The body of a response that resolved with [ok] set and decoded. *)
Definition decoded {A} (r : Response A) : option A :=
  match r with
  | Resolved true _ _ (inr data) => Some data
  | _ => None
  end.

(** The request failed: a transport error, or a response without [ok]. *)
Definition request_failed {A} (r : Response A) : bool :=
  match r with
  | Rejected _ => true
  | Resolved ok _ _ _ => negb ok
  end.

End Browser.

Import Browser.

(** ** FileDropzone.jsx *)
Module FileDropzone.

(** The props other than the callback [onFileSelect], whose calls are
    recorded as effects. *)
Record Props := {
  acceptedFormats : list string;
  label : string;
  currentFile : option File;
  disabled : bool
}.

(** What a handler does besides updating [isDragActive]. *)
Inductive Effect :=
| OnFileSelect (file : option File)
| Alert (text : string)
| ResetInputValue
| PreventDefault
| StopPropagation.

(** ['.' + file.name.split('.').pop().toLowerCase()] *)
Definition extensionOf (file : File) : string :=
  "." ++ toLowerCase (pop (split "." (name file))).

(** [acceptedFormats.includes(extension)] *)
Definition validateFile (props : Props) (file : File) : bool :=
  existsb (String.eqb (extensionOf file)) (acceptedFormats props).

Definition invalidFormat (props : Props) : string :=
  "Invalid file format. Please select: " ++ join ", " (acceptedFormats props).

(** [handleFileInput], given [event.target.files]; [isDragActive] is not
    touched. *)
Definition handleFileInput (props : Props) (files : list File) : list Effect :=
  match files with
  | [] => []
  | file :: _ =>
      if validateFile props file then [OnFileSelect (Some file)]
      else [Alert (invalidFormat props); ResetInputValue]
  end.

(** [handleDragEnter]: the new [isDragActive] and the effects. *)
Definition handleDragEnter (props : Props) (isDragActive : bool) : bool * list Effect :=
  (if negb (disabled props) then true else isDragActive,
   [PreventDefault; StopPropagation]).

(** [handleDrop], given [e.dataTransfer.files]. *)
Definition handleDrop (props : Props) (files : list File) (isDragActive : bool)
    : bool * list Effect :=
  (false,
   ([PreventDefault; StopPropagation]
    ++ if disabled props then []
       else match files with
            | [] => []
            | file :: _ =>
                if validateFile props file then [OnFileSelect (Some file)]
                else [Alert (invalidFormat props)]
            end)%list).

(** [handleRemoveFile] *)
Definition handleRemoveFile : list Effect :=
  [StopPropagation; OnFileSelect None].

(** The calls of [onFileSelect] among the effects, in order. *)
Fixpoint selections (effects : list Effect) : list (option File) :=
  match effects with
  | [] => []
  | OnFileSelect file :: rest => file :: selections rest
  | _ :: rest => selections rest
  end.

(** The extension of a file name as the selection rule reads it: what
    follows the last dot, and the whole name when it has no dot. *)
Inductive extension_of_name : string -> string -> Prop :=
| after_last_dot (before ext : string) :
    includes ext "." = false ->
    extension_of_name (before ++ "." ++ ext) ext
| without_dot (file_name : string) :
    includes file_name "." = false ->
    extension_of_name file_name file_name.

End FileDropzone.

(** ** Toast.jsx

    The component together with the browser's timers and a clock counted in
    milliseconds; delays and durations are whole numbers of milliseconds. *)
Module Toast.

(** The two functions the component hands to [setTimeout]: [handleClose]
    (from the auto-close effect) and the end of the exit animation (from
    [handleClose]). *)
Inductive Callback := AutoClose | FinishClose.

Record Timer := { timer_id : nat; due : nat; callback : Callback }.

Record World := {
  now : nat;
  (* props, as the parent passes them *)
  message : string;
  type : string;
  duration : nat;
  (* component state *)
  isVisible : bool;
  isExiting : bool;
  (* the timer the auto-close effect's cleanup clears, when it set one *)
  autoCloseTimer : option nat;
  (* the browser's pending timers, oldest first *)
  timers : list Timer;
  nextTimerId : nat
}.

(** The delay [handleClose] gives the exit animation. *)
Definition exitAnimationMs : nat := 300.

(** [duration = 5000], the default [App] relies on. *)
Definition defaultDuration : nat := 5000.

(** [setTimeout(callback, delay)]: the new world and the timer's id. *)
Definition setTimeout (cb : Callback) (delay : nat) (w : World) : World * nat :=
  ({| now := now w; message := message w; type := type w; duration := duration w;
      isVisible := isVisible w; isExiting := isExiting w;
      autoCloseTimer := autoCloseTimer w;
      timers := (timers w ++ [ {| timer_id := nextTimerId w;
                                  due := now w + delay;
                                  callback := cb |} ])%list;
      nextTimerId := S (nextTimerId w) |},
   nextTimerId w).

(** [clearTimeout(id)] *)
Definition clearTimeout (id : nat) (w : World) : World :=
  {| now := now w; message := message w; type := type w; duration := duration w;
     isVisible := isVisible w; isExiting := isExiting w;
     autoCloseTimer := autoCloseTimer w;
     timers := filter (fun t => negb (timer_id t =? id)%nat) (timers w);
     nextTimerId := nextTimerId w |}.

Definition setState (visible exiting : bool) (w : World) : World :=
  {| now := now w; message := message w; type := type w; duration := duration w;
     isVisible := visible; isExiting := exiting;
     autoCloseTimer := autoCloseTimer w;
     timers := timers w; nextTimerId := nextTimerId w |}.

Definition setAutoCloseTimer (id : option nat) (w : World) : World :=
  {| now := now w; message := message w; type := type w; duration := duration w;
     isVisible := isVisible w; isExiting := isExiting w;
     autoCloseTimer := id;
     timers := timers w; nextTimerId := nextTimerId w |}.

Definition setProps (message' type' : string) (duration' : nat) (w : World) : World :=
  {| now := now w; message := message'; type := type'; duration := duration';
     isVisible := isVisible w; isExiting := isExiting w;
     autoCloseTimer := autoCloseTimer w;
     timers := timers w; nextTimerId := nextTimerId w |}.

(** The first effect, dependencies [[message]]. *)
Definition showEffect (w : World) : World :=
  if (message w =? "")%string then w else setState true false w.

(** The second effect, dependencies [[message, duration]]: the cleanup of
    its previous run, then its body. *)
Definition autoCloseEffect (w : World) : World :=
  let cleaned :=
    match autoCloseTimer w with
    | Some id => setAutoCloseTimer None (clearTimeout id w)
    | None => w
    end in
  if negb (message cleaned =? "")%string && (0 <? duration cleaned)%nat then
    let '(w', id) := setTimeout AutoClose (duration cleaned) cleaned in
    setAutoCloseTimer (Some id) w'
  else cleaned.

(** A render with the given props followed by the effects whose
    dependencies changed. *)
Definition render (message' type' : string) (duration' : nat) (w : World) : World :=
  let message_changed := negb (message w =? message')%string in
  let duration_changed := negb (duration w =? duration')%nat in
  let w1 := setProps message' type' duration' w in
  let w2 := if message_changed then showEffect w1 else w1 in
  if message_changed || duration_changed then autoCloseEffect w2 else w2.

(** The first render: every effect runs. *)
Definition mount (message' type' : string) (duration' : nat) : World :=
  autoCloseEffect
    (showEffect
       {| now := 0; message := message'; type := type'; duration := duration';
          isVisible := false; isExiting := false;
          autoCloseTimer := None; timers := []; nextTimerId := 0 |}).

(** [handleClose]: start the exit animation, finish after 300 ms. *)
Definition handleClose (w : World) : World :=
  fst (setTimeout FinishClose exitAnimationMs (setState (isVisible w) true w)).

(** [onClose()] as [App] passes it: [setToast({ message: '', type: '' })],
    which renders the toast again with an empty message. *)
Definition onClose (w : World) : World := render "" "" (duration w) w.

Definition run (cb : Callback) (w : World) : World :=
  match cb with
  | AutoClose => handleClose w
  | FinishClose => onClose (setState false false w)
  end.

(** Fire, oldest first, those of [pending] that are still pending. *)
Fixpoint fire (pending : list Timer) (w : World) : World :=
  match pending with
  | [] => w
  | t :: rest =>
      if existsb (fun t' => (timer_id t' =? timer_id t)%nat) (timers w)
      then fire rest (run (callback t) (clearTimeout (timer_id t) w))
      else fire rest w
  end.

Definition setNow (time : nat) (w : World) : World :=
  {| now := time; message := message w; type := type w; duration := duration w;
     isVisible := isVisible w; isExiting := isExiting w;
     autoCloseTimer := autoCloseTimer w;
     timers := timers w; nextTimerId := nextTimerId w |}.

(** One millisecond passes; the timers that are due fire. *)
Definition tick (w : World) : World :=
  let w1 := setNow (S (now w)) w in
  fire (filter (fun t => (due t <=? now w1)%nat) (timers w1)) w1.

(** [ms] milliseconds pass. *)
Fixpoint advance (ms : nat) (w : World) : World :=
  match ms with
  | O => w
  | S ms' => advance ms' (tick w)
  end.

(** The component renders something: [if (!message) return null]. *)
Definition rendered (w : World) : bool := negb (message w =? "")%string.

(** A mounted toast that shows nothing and has nothing pending. *)
Definition idle (w : World) : Prop :=
  message w = "" /\ timers w = [] /\ autoCloseTimer w = None.

(** No exit animation is pending: the only timer that may be pending is
    the auto-close timer the component holds, which the cleanup of the
    auto-close effect clears when another message is shown. *)
Definition settled (w : World) : Prop :=
  forall t, In t (timers w) -> autoCloseTimer w = Some (timer_id t).

(** A toast that shows [m] with its auto-close timer, due at [closeAt],
    as the only timer pending. *)
Definition showing (w : World) (m : string) (closeAt : nat) : Prop :=
  m <> ""
  /\ message w = m
  /\ now w < closeAt
  /\ exists id,
       timers w = [ {| timer_id := id; due := closeAt; callback := AutoClose |} ]
       /\ autoCloseTimer w = Some id.

End Toast.

(** ** The [useToast] hook of [src/Toast.jsx]

    The hook keeps a list of toasts.  [showToast] names the new toast after
    [Date.now()], the clock in whole milliseconds, and for a positive
    duration hands [setTimeout] a call of [removeToast] with that name.
    These timeouts are never cleared, so a pending one is just its due time
    and the id it will remove. *)
Module UseToast.

Record ToastItem := { id : nat; message : string; type : string; duration : nat }.

(** A pending [setTimeout(() => removeToast(id), duration)]. *)
Record Removal := { due : nat; target : nat }.

Record Hook := {
  now : nat;
  toasts : list ToastItem;
  (* the browser's pending timers, oldest first *)
  timers : list Removal
}.

(** [useState([])], mounted at [time]. *)
Definition initial (time : nat) : Hook := {| now := time; toasts := []; timers := [] |}.

(** [setToasts(prev => prev.filter(toast => toast.id !== id))] *)
Definition removeToast (i : nat) (h : Hook) : Hook :=
  {| now := now h;
     toasts := filter (fun toast => negb (id toast =? i)%nat) (toasts h);
     timers := timers h |}.

Definition showToast (message' type' : string) (duration' : nat) (h : Hook) : Hook :=
  let i := now h in
  let newToast := {| id := i; message := message'; type := type'; duration := duration' |} in
  {| now := now h;
     toasts := (toasts h ++ [newToast])%list;
     timers := if (0 <? duration')%nat
               then (timers h ++ [ {| due := now h + duration'; target := i |} ])%list
               else timers h |}.

(** One millisecond passes; the timeouts that are due run, oldest first. *)
Definition tick (h : Hook) : Hook :=
  let time := S (now h) in
  fold_left (fun h' r => removeToast (target r) h')
    (filter (fun r => (due r <=? time)%nat) (timers h))
    {| now := time; toasts := toasts h;
       timers := filter (fun r => negb (due r <=? time)%nat) (timers h) |}.

(** [ms] milliseconds pass. *)
Fixpoint advance (ms : nat) (h : Hook) : Hook :=
  match ms with
  | O => h
  | S ms' => advance ms' (tick h)
  end.

End UseToast.

(** ** App.jsx *)
Module App.

(** The [type] of a log entry: ['info'], ['success'] or ['error']. *)
Inductive LogType := Info | Success | Error.

Definition LogType_to_string (t : LogType) : string :=
  match t with
  | Info => "info"
  | Success => "success"
  | Error => "error"
  end.

(** [{ type, message }] *)
Record LogEntry := { type : LogType; message : string }.

(** [{ current, total }] *)
Record Progress := { current : Z; total : Z }.

(** The toast state [{ message, type }]; both are empty when nothing is
    shown. *)
Record ToastState := { toast_message : string; toast_type : string }.

(** The six [useState] cells of [App]. *)
Record AppState := {
  recipientsFile : option File;
  attachmentFile : option File;
  isSending : bool;
  progress : Progress;
  logs : list LogEntry;
  toast : ToastState
}.

(** The state of a freshly mounted [App]. *)
Definition initialState : AppState :=
  {| recipientsFile := None;
     attachmentFile := None;
     isSending := false;
     progress := {| current := 0; total := 0 |};
     logs := [];
     toast := {| toast_message := ""; toast_type := "" |} |}.

(** What a handler does to the world outside the component state. *)
Inductive Effect :=
| Fetch (method url : string) (body : list (string * File))
| ConsoleWarn (label detail : string)
| ConsoleError (label detail : string).

(** [GET /api/progress] decoded: [{ current, total, logs, is_active }];
    [logs] may be missing. *)
Record ProgressData := {
  data_current : Z;
  data_total : Z;
  data_logs : option (list string);
  data_is_active : bool
}.

(** [GET /api/status] decoded: [{ successCount, failureCount }], each an
    integer or missing ([None], read as [undefined]), as in the body of an
    answer that reports an error instead. *)
Record StatusData := { successCount : option Z; failureCount : option Z }.

(** [POST /api/send] decoded: [{ message }] on acceptance, [{ error }] on
    refusal; either field may be missing. *)
Record SendReply := { reply_message : option string; reply_error : option string }.

(** *** Handlers as state transformers that log their effects *)

Definition Act (A : Type) : Type := AppState -> A * AppState * list Effect.

Definition ret {A} (a : A) : Act A := fun st => (a, st, []).

Definition bind {A B} (m : Act A) (k : A -> Act B) : Act B :=
  fun st =>
    let '(a, st1, e1) := m st in
    let '(b, st2, e2) := k a st1 in
    (b, st2, (e1 ++ e2)%list).

Notation "x <- m ;; k" := (bind m (fun x => k))
  (at level 61, m at next level, right associativity).
Notation "m ;; k" := (bind m (fun _ => k))
  (at level 61, right associativity).

Definition perform (e : Effect) : Act unit := fun st => (tt, st, [e]).

Definition readState : Act AppState := fun st => (st, st, []).

Definition setRecipientsFile (f : option File) : Act unit :=
  fun st =>
    (tt,
     {| recipientsFile := f; attachmentFile := attachmentFile st;
        isSending := isSending st; progress := progress st;
        logs := logs st; toast := toast st |},
     []).

Definition setAttachmentFile (f : option File) : Act unit :=
  fun st =>
    (tt,
     {| recipientsFile := recipientsFile st; attachmentFile := f;
        isSending := isSending st; progress := progress st;
        logs := logs st; toast := toast st |},
     []).

Definition setIsSending (b : bool) : Act unit :=
  fun st =>
    (tt,
     {| recipientsFile := recipientsFile st; attachmentFile := attachmentFile st;
        isSending := b; progress := progress st;
        logs := logs st; toast := toast st |},
     []).

Definition setProgress (p : Progress) : Act unit :=
  fun st =>
    (tt,
     {| recipientsFile := recipientsFile st; attachmentFile := attachmentFile st;
        isSending := isSending st; progress := p;
        logs := logs st; toast := toast st |},
     []).

(** [setLogs(prev => f(prev))]; [setLogs(value)] is [setLogs (fun _ => value)]. *)
Definition setLogs (f : list LogEntry -> list LogEntry) : Act unit :=
  fun st =>
    (tt,
     {| recipientsFile := recipientsFile st; attachmentFile := attachmentFile st;
        isSending := isSending st; progress := progress st;
        logs := f (logs st); toast := toast st |},
     []).

Definition setToast (t : ToastState) : Act unit :=
  fun st =>
    (tt,
     {| recipientsFile := recipientsFile st; attachmentFile := attachmentFile st;
        isSending := isSending st; progress := progress st;
        logs := logs st; toast := t |},
     []).

Definition stateAfter {A} (r : A * AppState * list Effect) : AppState := snd (fst r).
Definition effectsOf {A} (r : A * AppState * list Effect) : list Effect := snd r.

(** *** The component's functions *)

Definition showToast (message type : string) : Act unit :=
  setToast {| toast_message := message; toast_type := type |}.

Definition clearFiles : Act unit :=
  setRecipientsFile None ;; setAttachmentFile None.

Definition clearLogs : Act unit :=
  setLogs (fun _ => []) ;; setProgress {| current := 0; total := 0 |}.

(** The categorisation of one server log line (the body of the [map] in
    the polling effect). *)
Definition classify (logMessage : string) : LogEntry :=
  if includes logMessage "✓" || includes (toLowerCase logMessage) "success" then
    {| type := Success; message := logMessage |}
  else if includes logMessage "✗"
          || includes (toLowerCase logMessage) "error"
          || includes (toLowerCase logMessage) "failed" then
    {| type := Error; message := logMessage |}
  else
    {| type := Info; message := logMessage |}.

(** A count inside a template literal. *)
Definition count_to_string (count : option Z) : string :=
  match count with
  | Some n => number_to_string n
  | None => "undefined"
  end.

(** [count === 0] *)
Definition is_zero (count : option Z) : bool :=
  match count with
  | Some n => (n =? 0)%Z
  | None => false
  end.

(** [count > 0]: [undefined > 0] is false. *)
Definition is_positive (count : option Z) : bool :=
  match count with
  | Some n => (0 <? n)%Z
  | None => false
  end.

(** The toast shown once the final status has been fetched. *)
Definition completionToast (statusData : StatusData) : Act unit :=
  if is_zero (failureCount statusData) then
    showToast ("All " ++ count_to_string (successCount statusData)
               ++ " messages sent successfully!") "success"
  else
    showToast ("Completed: " ++ count_to_string (successCount statusData)
               ++ " sent, " ++ count_to_string (failureCount statusData) ++ " failed")
              (if is_positive (successCount statusData) then "success" else "error").

(** The callback given to [setInterval].  [closure_logs] is the [logs] the
    callback closed over when the effect installed it: the slice offset is
    read from it, while the append goes through the functional update
    [setLogs(prev => ...)].  [response] is what [fetch('/api/progress')]
    gives; [statusResponse] is what [fetch('/api/status')] gives if the
    callback gets that far. *)
Definition pollCallback (closure_logs : list LogEntry)
    (response : Response ProgressData) (statusResponse : Response StatusData)
    : Act unit :=
  perform (Fetch "GET" "/api/progress" []) ;;
  match response with
  | Rejected error => perform (ConsoleError "Progress polling error:" error)
  | Resolved ok status _ body =>
      if negb ok then
        perform (ConsoleWarn "Failed to fetch progress:" (number_to_string status))
      else
        match body with
        | inl error => perform (ConsoleError "Progress polling error:" error)
        | inr data =>
            setProgress {| current := data_current data; total := data_total data |} ;;
            match data_logs data with
            | Some server_logs =>
                if (List.length closure_logs <? List.length server_logs)%nat then
                  let newLogs :=
                    map classify (skipn (List.length closure_logs) server_logs) in
                  setLogs (fun prev => (prev ++ newLogs)%list)
                else ret tt
            | None => ret tt
            end ;;
            if negb (data_is_active data) && (0 <? data_total data)%Z then
              setIsSending false ;;
              perform (Fetch "GET" "/api/status" []) ;;
              match statusResponse with
              | Rejected error =>
                  perform (ConsoleError "Failed to fetch final status:" error)
              | Resolved _ _ _ (inl error) =>
                  perform (ConsoleError "Failed to fetch final status:" error)
              | Resolved _ _ _ (inr statusData) => completionToast statusData
              end
            else ret tt
        end
  end.

(** One poll cycle.  The interval exists only while [isSending] holds, and
    the effect is re-installed whenever [isSending] or [logs.length]
    changes, so a callback that starts after the previous one has finished
    closes over the current [logs]. *)
Definition pollCycle (response : Response ProgressData)
    (statusResponse : Response StatusData) : Act unit :=
  fun st =>
    if isSending st then pollCallback (logs st) response statusResponse st
    else (tt, st, []).

(** A run of poll cycles, one after the other, each with the answers the
    server gives it. *)
Fixpoint pollCycles (answers : list (Response ProgressData * Response StatusData))
    : Act unit :=
  match answers with
  | [] => ret tt
  | (response, statusResponse) :: rest =>
      pollCycle response statusResponse ;; pollCycles rest
  end.

(** [handleStartSending] up to [await fetch('/api/send', ...)]: [None] when
    the launch is refused, otherwise the request is on its way. *)
Definition handleStartSending_request : Act (option (list (string * File))) :=
  st <- readState ;;
  match recipientsFile st with
  | None =>
      showToast "Please select a recipients Excel file" "error" ;;
      ret None
  | Some recipients =>
      setIsSending true ;;
      setLogs (fun _ => []) ;;
      setProgress {| current := 0; total := 0 |} ;;
      let formData :=
        (("recipientsFile", recipients)
         :: match attachmentFile st with
            | Some attachment => [("attachmentFile", attachment)]
            | None => []
            end)%list in
      setLogs (fun _ =>
        [ {| type := Info;
             message := "Initializing bulk send process with "
                        ++ name recipients ++ "..." |} ]) ;;
      perform (Fetch "POST" "/api/send" formData) ;;
      ret (Some formData)
  end.

(** The [catch] block of [handleStartSending]. *)
Definition sendFailed (error_message : string) : Act unit :=
  perform (ConsoleError "Send initiation error:" error_message) ;;
  setLogs (fun prev =>
    (prev ++ [ {| type := Error; message := "Error: " ++ error_message |} ])%list) ;;
  showToast "Failed to start sending process. Please check your connection and try again."
            "error" ;;
  setIsSending false.

(** [handleStartSending] from the point where [fetch('/api/send')] has
    settled. *)
Definition handleStartSending_settled (response : Response SendReply) : Act unit :=
  match response with
  | Rejected error => sendFailed error
  | Resolved ok status statusText body =>
      if negb ok then
        match body with
        | inl error => sendFailed error
        | inr errorData =>
            sendFailed
              (or_else (reply_error errorData)
                       ("Server error: " ++ number_to_string status ++ " " ++ statusText))
        end
      else
        match body with
        | inl error => sendFailed error
        | inr result =>
            setLogs (fun prev =>
              (prev ++ [ {| type := Info;
                            message := or_else (reply_message result)
                                         "Bulk sending process started successfully" |} ])%list)
        end
  end.

(** [handleStartSending] as a whole, with the answer of [/api/send]. *)
Definition handleStartSending (response : Response SendReply) : Act unit :=
  request <- handleStartSending_request ;;
  match request with
  | None => ret tt
  | Some _ => handleStartSending_settled response
  end.

(** The text the export button writes to the downloaded file. *)
Definition exportLogs (history : list LogEntry) : string :=
  join (String (ascii_of_nat 10) EmptyString)
    (map (fun log => "[" ++ toUpperCase (LogType_to_string (type log)) ++ "] " ++ message log)
         history).

(** *** Readings of a run used to state its properties *)

(** [logs.length] of a decoded progress answer; 0 when it has no [logs]. *)
Definition logCount (data : ProgressData) : nat :=
  match data_logs data with
  | Some server_logs => List.length server_logs
  | None => 0
  end.

(** The log count a poll answer reports; 0 when the poll failed. *)
Definition reportedCount (response : Response ProgressData) : nat :=
  match decoded response with
  | Some data => logCount data
  | None => 0
  end.

(** The largest log count among the answers of a run. *)
Fixpoint maxReportedCount
    (answers : list (Response ProgressData * Response StatusData)) : nat :=
  match answers with
  | [] => 0
  | (response, _) :: rest => Nat.max (reportedCount response) (maxReportedCount rest)
  end.

(** The poll answer ends the run: it decodes with [is_active] false and a
    positive [total]. *)
Definition completesRun (response : Response ProgressData) : bool :=
  match decoded response with
  | Some data => negb (data_is_active data) && (0 <? data_total data)%Z
  | None => false
  end.

(** The requests among the effects, by URL, in order. *)
Fixpoint requests (effects : list Effect) : list string :=
  match effects with
  | [] => []
  | Fetch _ url _ :: rest => url :: requests rest
  | _ :: rest => requests rest
  end.

(** *** The markers of a log line, in the words of the specification *)

(** A success marker: the check mark, or the word success in any case. *)
Definition success_marker (text : string) : Prop :=
  occurs "✓" text \/ occurs_ignoring_case "success" text.

(** An error or failure marker: the ballot cross, or one of the words
    error and failed in any case. *)
Definition error_marker (text : string) : Prop :=
  occurs "✗" text
  \/ occurs_ignoring_case "error" text
  \/ occurs_ignoring_case "failed" text.

(** *** The two dropzones as [App] renders them *)

Definition excelFormats : list string := [".xlsx"; ".xls"].

Definition attachmentFormats : list string :=
  [".pdf"; ".jpg"; ".jpeg"; ".png"; ".gif"; ".doc"; ".docx"; ".txt"].

Inductive Slot := Recipients | Attachment.

(** The props [App] passes to a dropzone. *)
Definition dropzoneProps (slot : Slot) (st : AppState) : FileDropzone.Props :=
  match slot with
  | Recipients =>
      {| FileDropzone.acceptedFormats := excelFormats;
         FileDropzone.label := "Recipients Excel File *";
         FileDropzone.currentFile := recipientsFile st;
         FileDropzone.disabled := isSending st |}
  | Attachment =>
      {| FileDropzone.acceptedFormats := attachmentFormats;
         FileDropzone.label := "Attachment (Optional)";
         FileDropzone.currentFile := attachmentFile st;
         FileDropzone.disabled := isSending st |}
  end.

(** [onFileSelect] of a slot: [setRecipientsFile] or [setAttachmentFile]. *)
Definition onFileSelect (slot : Slot) (file : option File) : Act unit :=
  match slot with
  | Recipients => setRecipientsFile file
  | Attachment => setAttachmentFile file
  end.

(** What the effects of a dropzone handler do to [App]: only the calls of
    [onFileSelect] reach its state. *)
Fixpoint dropzoneEffects (slot : Slot) (effects : list FileDropzone.Effect) : Act unit :=
  match effects with
  | [] => ret tt
  | FileDropzone.OnFileSelect file :: rest =>
      onFileSelect slot file ;; dropzoneEffects slot rest
  | _ :: rest => dropzoneEffects slot rest
  end.

(** A file chosen through the file input of a slot. *)
Definition chooseFile (slot : Slot) (files : list File) : Act unit :=
  fun st =>
    dropzoneEffects slot
      (FileDropzone.handleFileInput (dropzoneProps slot st) files) st.

(** A file dropped on a slot. *)
Definition dropFile (slot : Slot) (files : list File) (isDragActive : bool) : Act unit :=
  fun st =>
    dropzoneEffects slot
      (snd (FileDropzone.handleDrop (dropzoneProps slot st) files isDragActive)) st.

(** *** The rest of the component: statistics, export, controls *)

Definition LogType_eqb (a b : LogType) : bool :=
  match a, b with
  | Info, Info | Success, Success | Error, Error => true
  | _, _ => false
  end.

(** [{ successCount, errorCount, totalProcessed }] of [getSummaryStats]. *)
Record SummaryStats := {
  summary_successCount : nat;
  summary_errorCount : nat;
  summary_totalProcessed : nat
}.

(** [getSummaryStats] *)
Definition getSummaryStats (st : AppState) : SummaryStats :=
  let successCount :=
    List.length (filter (fun log => LogType_eqb (type log) Success) (logs st)) in
  let errorCount :=
    List.length (filter (fun log => LogType_eqb (type log) Error) (logs st)) in
  {| summary_successCount := successCount;
     summary_errorCount := errorCount;
     summary_totalProcessed := successCount + errorCount |}.

(** One line of the export: the upper-cased type in brackets, a space, the
    message. *)
Definition exportLine (log : LogEntry) : string :=
  "[" ++ toUpperCase (LogType_to_string (type log)) ++ "] " ++ message log.

(** What a click on the export button does to the state, once the file has
    been handed to the browser. *)
Definition exportButtonClick : Act unit :=
  showToast "Logs exported successfully!" "success".

(** [onClose] as passed to [Toast]. *)
Definition toastOnClose : Act unit :=
  setToast {| toast_message := ""; toast_type := "" |}.

(** [disabled={!recipientsFile || isSending}] of the send button. *)
Definition startDisabled (st : AppState) : bool :=
  match recipientsFile st with
  | Some _ => isSending st
  | None => true
  end.

(** [logs.length > 0 && !isSending]: the condition under which the clear
    button is rendered; the close button of the progress log has the same
    one. *)
Definition clearLogsShown (st : AppState) : bool :=
  (0 <? List.length (logs st))%nat && negb (isSending st).

(** [!isSending && logs.length > 0 && progress.total > 0] *)
Definition exportShown (st : AppState) : bool :=
  negb (isSending st) && (0 <? List.length (logs st))%nat && (0 <? total (progress st))%Z.

(** What can happen to the console: a control that is rendered and enabled
    is used, or an asynchronous continuation runs.  The continuations (the
    rest of [handleStartSending] after its request, a poll callback with
    whatever history it closed over) are allowed at any time, which covers
    late and overlapping ones. *)
Inductive step : AppState -> AppState -> Prop :=
| step_startSending (st : AppState) :
    startDisabled st = false ->
    step st (stateAfter (handleStartSending_request st))
| step_sendSettled (st : AppState) (response : Response SendReply) :
    step st (stateAfter (handleStartSending_settled response st))
| step_pollCallback (st : AppState) (closure_logs : list LogEntry)
    (response : Response ProgressData) (statusResponse : Response StatusData) :
    step st (stateAfter (pollCallback closure_logs response statusResponse st))
| step_clearFiles (st : AppState) :
    isSending st = false ->
    step st (stateAfter (clearFiles st))
| step_clearLogs (st : AppState) :
    clearLogsShown st = true ->
    step st (stateAfter (clearLogs st))
| step_export (st : AppState) :
    exportShown st = true ->
    step st (stateAfter (exportButtonClick st))
| step_chooseFile (st : AppState) (slot : Slot) (files : list File) :
    isSending st = false ->
    step st (stateAfter (chooseFile slot files st))
| step_dropFile (st : AppState) (slot : Slot) (files : list File) (isDragActive : bool) :
    step st (stateAfter (dropFile slot files isDragActive st))
| step_removeFile (st : AppState) (slot : Slot) :
    isSending st = false ->
    step st (stateAfter (onFileSelect slot None st))
| step_toastClosed (st : AppState) :
    step st (stateAfter (toastOnClose st)).


(** The states the console can be in. *)
Inductive reachable : AppState -> Prop :=
| reachable_initial : reachable initialState
| reachable_step (st st' : AppState) : reachable st -> step st st' -> reachable st'.

(** The lines of all the answers of a run that decoded with a log list. *)
Fixpoint reportedLines
    (answers : list (Response ProgressData * Response StatusData)) : list string :=
  match answers with
  | [] => []
  | (response, _) :: rest =>
      (match decoded response with
       | Some data => match data_logs data with Some lines => lines | None => [] end
       | None => []
       end ++ reportedLines rest)%list
  end.

End App.

(** ** ProgressLog.jsx *)
Module ProgressLog.

Import App.

(** [{ success, error, info }], the accumulator of [getLogStats]. *)
Record LogStats := { success : nat; error : nat; info : nat }.

(** [stats[log.type] = (stats[log.type] || 0) + 1] *)
Definition countLog (stats : LogStats) (log : LogEntry) : LogStats :=
  match type log with
  | Success => {| success := success stats + 1; error := error stats; info := info stats |}
  | Error => {| success := success stats; error := error stats + 1; info := info stats |}
  | Info => {| success := success stats; error := error stats; info := info stats + 1 |}
  end.

(** [getLogStats]: [logs.reduce(..., { success: 0, error: 0, info: 0 })] *)
Definition getLogStats (logs : list LogEntry) : LogStats :=
  fold_left countLog logs {| success := 0; error := 0; info := 0 |}.

(** The component renders: [if (!isActive && logs.length === 0) return null]. *)
Definition rendered (isActive : bool) (logs : list LogEntry) : bool :=
  negb (negb isActive && (List.length logs =? 0)%nat).

End ProgressLog.

(** ** Concrete inputs

    The values of the scenario in the specification's testable properties,
    and a few more that the properties below are run on. *)
Module Scenario.

Import App.

(** A recipients file, an accepted launch and poll answers. *)
Definition recipients_xlsx : File :=
  {| name := "r.xlsx"; size := 2048; Browser.type := "" |}.

Definition launch_accepted : Response SendReply :=
  Resolved true 200 "OK"
    (inr {| reply_message := Some "started"; reply_error := None |}).

Definition first_answer : Response ProgressData :=
  Resolved true 200 "OK"
    (inr {| data_current := 3; data_total := 10;
            data_logs := Some ["a"; "b"; "c"]; data_is_active := true |}).

Definition second_answer : Response ProgressData :=
  Resolved true 200 "OK"
    (inr {| data_current := 10; data_total := 10;
            data_logs := Some ["a"; "b"; "c"; "d ✓"; "error: e"];
            data_is_active := false |}).

Definition one_line_answer : Response ProgressData :=
  Resolved true 200 "OK"
    (inr {| data_current := 0; data_total := 10;
            data_logs := Some ["a"]; data_is_active := true |}).

Definition final_status : Response StatusData :=
  Resolved true 200 "OK" (inr {| successCount := Some 4%Z; failureCount := Some 1%Z |}).

(** The console with [r.xlsx] selected, and after its launch was accepted. *)
Definition file_selected : AppState :=
  stateAfter (setRecipientsFile (Some recipients_xlsx) initialState).

Definition launched : AppState :=
  stateAfter (handleStartSending launch_accepted file_selected).

End Scenario.

(** ** Proof automation *)

(** Unfold the state transformers of [App] and compute. *)
Ltac run_act :=
  unfold App.pollCycle, App.pollCallback, App.completionToast, App.showToast, App.bind,
    App.ret, App.perform, App.readState, App.setProgress, App.setLogs, App.setIsSending,
    App.setToast, App.stateAfter, App.effectsOf;
  cbn.

(** Split on every test and every answer the goal still branches on. *)
Ltac split_ifs :=
  repeat match goal with
         | |- context [if ?c then _ else _] => destruct c eqn:?
         | |- context [match ?x with inl _ => _ | inr _ => _ end] => destruct x
         | |- context [match ?x with Rejected _ => _ | Resolved _ _ _ _ => _ end] => destruct x
         | |- context [match ?x with Some _ => _ | None => _ end] => destruct x eqn:?
         end; cbn.

(** Replace the lengths in the goal by variables, for arithmetic. *)
Ltac abstract_lengths :=
  repeat match goal with
         | |- context [List.length ?l] =>
             let n := fresh "n" in generalize (List.length l); intro n
         end.

(** Settle the comparisons of clock values and timer ids that the
    hypotheses decide. *)
Ltac decide_nat :=
  repeat match goal with
         | |- context [Nat.leb ?a ?b] =>
             first [ replace (Nat.leb a b) with true
                       by (symmetry; apply Nat.leb_le; unfold Toast.exitAnimationMs; lia)
                   | replace (Nat.leb a b) with false
                       by (symmetry; apply Nat.leb_gt; unfold Toast.exitAnimationMs; lia) ]
         | |- context [Nat.eqb ?a ?b] =>
             first [ replace (Nat.eqb a b) with true
                       by (symmetry; apply Nat.eqb_eq; lia)
                   | replace (Nat.eqb a b) with false
                       by (symmetry; apply Nat.eqb_neq; lia) ]
         | |- context [Nat.ltb ?a ?b] =>
             first [ replace (Nat.ltb a b) with true
                       by (symmetry; apply Nat.ltb_lt; unfold Toast.exitAnimationMs; lia)
                   | replace (Nat.ltb a b) with false
                       by (symmetry; apply Nat.ltb_ge; unfold Toast.exitAnimationMs; lia) ]
         end.

(** Compute a toast world call by value, so that no setter copies an
    unevaluated world, and leave arithmetic on clock values alone. *)
Ltac toast_compute :=
  cbv beta iota zeta delta
    -[Nat.eqb Nat.add Nat.sub Nat.ltb Nat.leb Toast.exitAnimationMs].

(** * Properties *)

(** ** Strings *)
Section StringFacts.

Lemma prefix_iff (needle s : string) :
  String.prefix needle s = true <-> exists rest, s = needle ++ rest.
Proof.
  revert s; induction needle as [|c needle IH]; intros s.
  - simpl. destruct s; split; eauto.
  - destruct s as [|d s]; simpl.
    + split; [discriminate | intros [rest H]; discriminate].
    + destruct (ascii_dec c d) as [->|Hne].
      * rewrite IH. split; intros [rest H]; exists rest.
        -- now rewrite H.
        -- now inversion H.
      * split; [discriminate | intros [rest H]; inversion H; congruence].
Qed.

Lemma includes_iff (s needle : string) :
  includes s needle = true <-> occurs needle s.
Proof.
  unfold occurs. induction s as [|c s IH].
  - cbn [includes]. rewrite orb_false_r, prefix_iff. split.
    + intros [rest H]. exists "", rest. exact H.
    + intros [before [after H]]. destruct before; simpl in H.
      * now exists after.
      * discriminate.
  - cbn [includes]. rewrite orb_true_iff, IH, prefix_iff. split.
    + intros [[rest H] | [before [after H]]].
      * exists "", rest. exact H.
      * exists (String c before), after. simpl. now rewrite H.
    + intros [before [after H]]. destruct before as [|d before]; simpl in H.
      * left. now exists after.
      * right. inversion H. now exists before, after.
Qed.

Lemma includes_false_iff (s needle : string) :
  includes s needle = false <-> ~ occurs needle s.
Proof.
  rewrite <- includes_iff. destruct (includes s needle); intuition congruence.
Qed.

Lemma toLowerCase_app (a b : string) :
  toLowerCase (a ++ b) = toLowerCase a ++ toLowerCase b.
Proof.
  induction a as [|c a IH]; simpl; [reflexivity | now rewrite IH].
Qed.

(** A split of the lower-cased text is the image of a split of the text. *)
Lemma toLowerCase_split (s x y : string) :
  toLowerCase s = x ++ y ->
  exists a b, s = a ++ b /\ toLowerCase a = x /\ toLowerCase b = y.
Proof.
  revert s; induction x as [|c x IH]; intros s H.
  - exists "", s. auto.
  - destruct s as [|d s]; simpl in H; [discriminate|].
    inversion H as [[Hc Hs]]. destruct (IH _ Hs) as [a [b [-> [Ha Hb]]]].
    exists (String d a), b. simpl. rewrite Ha. auto.
Qed.

Lemma lower_ascii_idempotent (c : ascii) :
  lower_ascii (lower_ascii c) = lower_ascii c.
Proof.
  destruct c as [[] [] [] [] [] [] [] []]; reflexivity.
Qed.

Lemma toLowerCase_idempotent (s : string) :
  toLowerCase (toLowerCase s) = toLowerCase s.
Proof.
  induction s as [|c s IH]; simpl; [reflexivity|].
  now rewrite lower_ascii_idempotent, IH.
Qed.

(** Searching the lower-cased text for a lower-case word is searching the
    text for the word in any case. *)
Lemma includes_toLowerCase_iff (s needle : string) :
  toLowerCase needle = needle ->
  (includes (toLowerCase s) needle = true <-> occurs_ignoring_case needle s).
Proof.
  intros Hlow. rewrite includes_iff. unfold occurs, occurs_ignoring_case, eq_ignoring_case.
  rewrite Hlow. split.
  - intros [before [after H]].
    destruct (toLowerCase_split _ _ _ H) as [a [rest [-> [Ha Hrest]]]].
    destruct (toLowerCase_split _ _ _ Hrest) as [mid [b [-> [Hmid Hb]]]].
    exists a, mid, b. auto.
  - intros [before [mid [after [-> Hmid]]]].
    exists (toLowerCase before), (toLowerCase after).
    now rewrite !toLowerCase_app, Hmid.
Qed.

Lemma split_not_nil (sep : ascii) (s : string) : split sep s <> [].
Proof.
  destruct s as [|c s]; simpl; [discriminate|].
  destruct (Ascii.eqb c sep); [discriminate|].
  destruct (split sep s); discriminate.
Qed.

End StringFacts.

(** ** Classification of log lines *)
Section Classification.

Import App.

Lemma success_marker_iff (text : string) :
  success_marker text <->
  includes text "✓" || includes (toLowerCase text) "success" = true.
Proof.
  unfold success_marker.
  rewrite orb_true_iff, includes_iff, includes_toLowerCase_iff by reflexivity.
  reflexivity.
Qed.

Lemma error_marker_iff (text : string) :
  error_marker text <->
  includes text "✗" || includes (toLowerCase text) "error"
  || includes (toLowerCase text) "failed" = true.
Proof.
  unfold error_marker.
  rewrite !orb_true_iff, includes_iff, !includes_toLowerCase_iff by reflexivity.
  tauto.
Qed.

Lemma classify_message (text : string) : message (classify text) = text.
Proof.
  unfold classify.
  destruct (includes text "✓" || includes (toLowerCase text) "success"); [reflexivity|].
  destruct (includes text "✗" || includes (toLowerCase text) "error"
            || includes (toLowerCase text) "failed"); reflexivity.
Qed.

Lemma classify_success (text : string) :
  success_marker text -> type (classify text) = Success.
Proof.
  rewrite success_marker_iff. unfold classify. now intros ->.
Qed.

Lemma classify_error (text : string) :
  ~ success_marker text -> error_marker text -> type (classify text) = Error.
Proof.
  rewrite success_marker_iff, error_marker_iff. unfold classify.
  intros Hs He. apply not_true_is_false in Hs. now rewrite Hs, He.
Qed.

Lemma classify_info (text : string) :
  ~ success_marker text -> ~ error_marker text -> type (classify text) = Info.
Proof.
  rewrite success_marker_iff, error_marker_iff. unfold classify.
  intros Hs He. apply not_true_is_false in Hs, He. now rewrite Hs, He.
Qed.

Lemma classify_not_success (text : string) :
  type (classify text) <> Success -> ~ success_marker text.
Proof.
  intros H Hs. apply H. now apply classify_success.
Qed.

End Classification.

(** ** The polling effect *)
Section Polling.

Import App.

(** Without an interval nothing happens. *)
Lemma pollCycle_idle (r : Response ProgressData) (s : Response StatusData) (st : AppState) :
  isSending st = false -> pollCycle r s st = (tt, st, []).
Proof.
  intros H. unfold pollCycle. now rewrite H.
Qed.

(** A poll whose answer cannot be used changes no state. *)
Lemma pollCycle_undecoded (r : Response ProgressData) (s : Response StatusData)
    (st : AppState) :
  decoded r = None -> stateAfter (pollCycle r s st) = st.
Proof.
  intros H. unfold pollCycle. destruct (isSending st); [|reflexivity].
  destruct r as [e | [] status text [e | d]]; try discriminate H;
    run_act; now destruct st.
Qed.

(** The log history after a poll that decoded [data]. *)
Lemma pollCycle_logs (r : Response ProgressData) (s : Response StatusData)
    (st : AppState) (data : ProgressData) :
  isSending st = true -> decoded r = Some data ->
  logs (stateAfter (pollCycle r s st)) =
  match data_logs data with
  | Some server_logs =>
      if (List.length (logs st) <? List.length server_logs)%nat
      then (logs st ++ map classify (skipn (List.length (logs st)) server_logs))%list
      else logs st
  | None => logs st
  end.
Proof.
  intros Hs Hd. unfold pollCycle. rewrite Hs.
  destruct r as [e | [] status text [e | d]]; try discriminate Hd.
  injection Hd as ->. run_act. split_ifs; reflexivity.
Qed.

Lemma pollCycle_progress (r : Response ProgressData) (s : Response StatusData)
    (st : AppState) (data : ProgressData) :
  isSending st = true -> decoded r = Some data ->
  progress (stateAfter (pollCycle r s st)) =
  {| current := data_current data; total := data_total data |}.
Proof.
  intros Hs Hd. unfold pollCycle. rewrite Hs.
  destruct r as [e | [] status text [e | d]]; try discriminate Hd.
  injection Hd as ->. run_act. split_ifs; reflexivity.
Qed.

Lemma pollCycle_isSending (r : Response ProgressData) (s : Response StatusData)
    (st : AppState) (data : ProgressData) :
  isSending st = true -> decoded r = Some data ->
  isSending (stateAfter (pollCycle r s st)) =
  negb (negb (data_is_active data) && (0 <? data_total data)%Z).
Proof.
  intros Hs Hd. unfold pollCycle. rewrite Hs.
  destruct r as [e | [] status text [e | d]]; try discriminate Hd.
  injection Hd as ->. run_act. split_ifs; auto.
Qed.

(** A poll never touches the selected files. *)
Lemma pollCycle_files (r : Response ProgressData) (s : Response StatusData)
    (st : AppState) :
  recipientsFile (stateAfter (pollCycle r s st)) = recipientsFile st
  /\ attachmentFile (stateAfter (pollCycle r s st)) = attachmentFile st.
Proof.
  unfold pollCycle. destruct (isSending st); [|auto].
  run_act. split_ifs; auto.
Qed.


(** After a poll the history is as long as the longer of the history
    before it and the log list the server reported. *)
Lemma pollCycle_length (r : Response ProgressData) (s : Response StatusData)
    (st : AppState) :
  isSending st = true ->
  List.length (logs (stateAfter (pollCycle r s st))) =
  Nat.max (List.length (logs st)) (reportedCount r).
Proof.
  intros Hs. unfold reportedCount, logCount.
  destruct (decoded r) as [data|] eqn:Hd.
  - rewrite (pollCycle_logs r s st data Hs Hd).
    destruct (data_logs data) as [server_logs|]; [|lia].
    destruct (Nat.ltb_spec (List.length (logs st)) (List.length server_logs)).
    + rewrite length_app, length_map, length_skipn. lia.
    + lia.
  - rewrite pollCycle_undecoded by assumption. lia.
Qed.

(** A poll that reports no more lines than are held appends nothing. *)
Lemma pollCycle_no_growth (r : Response ProgressData) (s : Response StatusData)
    (st : AppState) :
  (reportedCount r <= List.length (logs st))%nat ->
  logs (stateAfter (pollCycle r s st)) = logs st.
Proof.
  intros Hle. destruct (isSending st) eqn:Hs.
  - unfold reportedCount, logCount in Hle.
    destruct (decoded r) as [data|] eqn:Hd.
    + rewrite (pollCycle_logs r s st data Hs Hd).
      destruct (data_logs data) as [server_logs|]; [|reflexivity].
      destruct (Nat.ltb_spec (List.length (logs st)) (List.length server_logs)); [lia|reflexivity].
    + now rewrite pollCycle_undecoded.
  - now rewrite pollCycle_idle.
Qed.

(** When the history holds exactly the server lines seen so far, a poll
    that reports those lines followed by fresh ones records every fresh
    line, in order. *)
Lemma pollCycle_extends (r : Response ProgressData) (s : Response StatusData)
    (st : AppState) (data : ProgressData) (known fresh : list string) :
  isSending st = true -> decoded r = Some data ->
  logs st = map classify known ->
  data_logs data = Some (known ++ fresh)%list ->
  logs (stateAfter (pollCycle r s st)) = map classify (known ++ fresh).
Proof.
  intros Hs Hd Hlogs Hdata.
  rewrite (pollCycle_logs r s st data Hs Hd), Hdata, Hlogs, length_map, length_app.
  destruct (Nat.ltb_spec (List.length known) (List.length known + List.length fresh)) as [Hlt|Hge].
  - rewrite skipn_app, skipn_all, Nat.sub_diag, !map_app. reflexivity.
  - assert (fresh = []) as -> by (destruct fresh; [reflexivity | simpl in Hge; lia]).
    now rewrite app_nil_r.
Qed.

Lemma pollCycles_cons (r : Response ProgressData) (s : Response StatusData)
    (rest : list (Response ProgressData * Response StatusData)) (st : AppState) :
  stateAfter (pollCycles ((r, s) :: rest) st) =
  stateAfter (pollCycles rest (stateAfter (pollCycle r s st))).
Proof.
  cbn [pollCycles]. unfold bind, stateAfter.
  destruct (pollCycle r s st) as [[u st1] e1]. cbn.
  destruct (pollCycles rest st1) as [[u' st2] e2]. reflexivity.
Qed.

Lemma pollCycles_nil (st : AppState) : stateAfter (pollCycles [] st) = st.
Proof. reflexivity. Qed.

Lemma pollCycles_cons_effects (r : Response ProgressData) (s : Response StatusData)
    (rest : list (Response ProgressData * Response StatusData)) (st : AppState) :
  effectsOf (pollCycles ((r, s) :: rest) st) =
  (effectsOf (pollCycle r s st)
   ++ effectsOf (pollCycles rest (stateAfter (pollCycle r s st))))%list.
Proof.
  cbn [pollCycles]. unfold bind, stateAfter, effectsOf.
  destruct (pollCycle r s st) as [[u st1] e1]. cbn.
  destruct (pollCycles rest st1) as [[u' st2] e2]. reflexivity.
Qed.

(** The effects of a failed poll: its request and a line on the console. *)
Lemma pollCycle_failed_effects (r : Response ProgressData) (s : Response StatusData)
    (st : AppState) :
  isSending st = true -> request_failed r = true ->
  requests (effectsOf (pollCycle r s st)) = ["/api/progress"].
Proof.
  intros Hs Hf. unfold pollCycle. rewrite Hs.
  destruct r as [e | [] status text body]; try discriminate Hf; reflexivity.
Qed.

Lemma request_failed_undecoded {A} (r : Response A) :
  request_failed r = true -> decoded r = None.
Proof.
  destruct r as [e | [] status text body]; [reflexivity | discriminate | reflexivity].
Qed.

Lemma pollCycle_keeps_sending (r : Response ProgressData) (s : Response StatusData)
    (st : AppState) :
  isSending st = true -> completesRun r = false ->
  isSending (stateAfter (pollCycle r s st)) = true.
Proof.
  intros Hs Hc. unfold completesRun in Hc.
  destruct (decoded r) as [data|] eqn:Hd.
  - now rewrite (pollCycle_isSending r s st data Hs Hd), Hc.
  - now rewrite pollCycle_undecoded.
Qed.

(** While no answer ends the run, the history after a run of polls is as
    long as the longer of the history it started with and the longest log
    list the server reported. *)
Lemma pollCycles_length (answers : list (Response ProgressData * Response StatusData))
    (st : AppState) :
  isSending st = true ->
  Forall (fun answer => completesRun (fst answer) = false) answers ->
  List.length (logs (stateAfter (pollCycles answers st))) =
  Nat.max (List.length (logs st)) (maxReportedCount answers).
Proof.
  intros Hs Hall. revert st Hs.
  induction Hall as [|[r s] rest Hr Hrest IH]; intros st Hs.
  - rewrite pollCycles_nil. cbn. lia.
  - cbn [fst] in Hr. rewrite pollCycles_cons, IH.
    + rewrite pollCycle_length by assumption. cbn [maxReportedCount]. lia.
    + now apply pollCycle_keeps_sending.
Qed.

End Polling.

(** ** The claims about the run *)
Section Run.

Import App Scenario.

(** C1, evaluated on the code.  After an accepted launch the history
    already holds two local entries.  The first poll answer reports the
    three lines a, b, c; the merge slices it from index 2, so only c is
    recorded and a and b never are.  A poll answer that reports a single
    line leaves the history at length 2, which is not the largest count
    the server reported. *)
Theorem launch_then_polls_lose_server_lines :
  logs launched =
    [ {| type := Info; message := "Initializing bulk send process with r.xlsx..." |};
      {| type := Info; message := "started" |} ]
  /\ logs (stateAfter (pollCycles [(first_answer, final_status)] launched)) =
       [ {| type := Info; message := "Initializing bulk send process with r.xlsx..." |};
         {| type := Info; message := "started" |};
         {| type := Info; message := "c" |} ]
  /\ logs (stateAfter (pollCycles [(first_answer, final_status);
                                   (second_answer, final_status)] launched)) =
       [ {| type := Info; message := "Initializing bulk send process with r.xlsx..." |};
         {| type := Info; message := "started" |};
         {| type := Info; message := "c" |};
         {| type := Success; message := "d ✓" |};
         {| type := Error; message := "error: e" |} ]
  /\ maxReportedCount [(one_line_answer, final_status)] = 1
  /\ List.length (logs (stateAfter (pollCycles [(one_line_answer, final_status)] launched))) = 2.
Proof.
  repeat split; vm_compute; reflexivity.
Qed.

(** Poll cycles that run one after the other, each callback seeing the
    history the one before it left: an answer that reports no more log
    lines than the answer processed just before it (in particular the same
    answer fed a second time) leaves the log history as it was after the
    first feed, and an answer whose log count is at most the local count
    appends nothing. *)
Lemma sequential_polls_append_nothing
    (st : AppState) (r1 r2 : Response ProgressData) (s1 s2 : Response StatusData) :
  ((reportedCount r2 <= reportedCount r1)%nat ->
   logs (stateAfter (pollCycles [(r1, s1); (r2, s2)] st)) =
   logs (stateAfter (pollCycles [(r1, s1)] st)))
  /\ logs (stateAfter (pollCycles [(r1, s1); (r1, s2)] st)) =
     logs (stateAfter (pollCycles [(r1, s1)] st))
  /\ ((reportedCount r1 <= List.length (logs st))%nat ->
      logs (stateAfter (pollCycles [(r1, s1)] st)) = logs st).
Proof.
  assert (Hgen : forall r, (reportedCount r <= reportedCount r1)%nat ->
            logs (stateAfter (pollCycles [(r1, s1); (r, s2)] st)) =
            logs (stateAfter (pollCycles [(r1, s1)] st))).
  { intros r Hle. rewrite !pollCycles_cons. cbn [pollCycles]. unfold ret.
    cbn [stateAfter fst snd].
    destruct (isSending st) eqn:Hs.
    - apply pollCycle_no_growth. rewrite pollCycle_length by assumption. lia.
    - rewrite (pollCycle_idle r1 s1 st Hs). cbn [stateAfter fst snd].
      now rewrite (pollCycle_idle r s2 st Hs). }
  split; [exact (Hgen r2)|]. split; [exact (Hgen r1 (Nat.le_refl _))|].
  intros Hle. rewrite pollCycles_cons. cbn [pollCycles]. unfold ret.
  cbn [stateAfter fst snd]. now apply pollCycle_no_growth.
Qed.

(** C2, evaluated on the code.  The callback compares the server's count
    with the length of the history it closed over, not with the history
    as it is when the answer arrives.  After an accepted launch the history
    holds two entries.  Two ticks of the interval whose requests are both
    in flight close over that history; each is answered a, b, c, and each
    appends c.  When the second answer is processed the server's count, 3,
    is not above the local count, 3, and the history grows all the same. *)
Theorem overlapping_polls_record_the_same_line_twice :
  isSending launched = true
  /\ logs (stateAfter (pollCallback (logs launched) first_answer final_status launched)) =
       [ {| type := Info; message := "Initializing bulk send process with r.xlsx..." |};
         {| type := Info; message := "started" |};
         {| type := Info; message := "c" |} ]
  /\ reportedCount first_answer = 3
  /\ logs (stateAfter
             (pollCallback (logs launched) first_answer final_status
                (stateAfter
                   (pollCallback (logs launched) first_answer final_status launched)))) =
       [ {| type := Info; message := "Initializing bulk send process with r.xlsx..." |};
         {| type := Info; message := "started" |};
         {| type := Info; message := "c" |};
         {| type := Info; message := "c" |} ].
Proof.
  repeat split; vm_compute; reflexivity.
Qed.

(** C3.  A poll cycle that runs while the console is sending ends the
    sending state exactly when its answer decodes with the active flag
    false and a total above zero.  With the flag false and total 0 the
    console keeps sending; with the flag false and total 5 it stops. *)
Theorem sending_ends_iff_inactive_and_total_positive
    (st : AppState) (r : Response ProgressData) (s : Response StatusData) :
  isSending st = true ->
  (isSending (stateAfter (pollCycle r s st)) = false <->
   exists data, decoded r = Some data
                /\ data_is_active data = false /\ (0 < data_total data)%Z)
  /\ (forall current server_logs status text,
        isSending (stateAfter (pollCycle
          (Resolved true status text
             (inr {| data_current := current; data_total := 0;
                     data_logs := server_logs; data_is_active := false |})) s st)) = true)
  /\ (forall current server_logs status text,
        isSending (stateAfter (pollCycle
          (Resolved true status text
             (inr {| data_current := current; data_total := 5;
                     data_logs := server_logs; data_is_active := false |})) s st)) = false).
Proof.
  intros Hs. split; [|split].
  - destruct (decoded r) as [data|] eqn:Hd.
    + rewrite (pollCycle_isSending r s st data Hs Hd).
      rewrite negb_false_iff, andb_true_iff, negb_true_iff, Z.ltb_lt. split.
      * intros [Ha Ht]. now exists data.
      * intros [data' [Heq [Ha Ht]]]. injection Heq as <-. auto.
    + rewrite pollCycle_undecoded by assumption. rewrite Hs. split.
      * discriminate.
      * intros [data [Heq _]]. discriminate.
  - intros.
    match goal with
    | |- context [pollCycle ?a _ _] =>
        match a with
        | context [inr ?d] => rewrite (pollCycle_isSending a s st d Hs eq_refl)
        end
    end. reflexivity.
  - intros.
    match goal with
    | |- context [pollCycle ?a _ _] =>
        match a with
        | context [inr ?d] => rewrite (pollCycle_isSending a s st d Hs eq_refl)
        end
    end. reflexivity.
Qed.

(** C3 on the launched console: the scenario's last answer (inactive,
    total 10) stops the sending, its first answer (active) does not. *)
Lemma sending_ends_iff_inactive_and_total_positive_witness :
  isSending launched = true
  /\ isSending (stateAfter (pollCycle second_answer final_status launched)) = false
  /\ isSending (stateAfter (pollCycle first_answer final_status launched)) = true.
Proof.
  assert (Hs : isSending launched = true) by reflexivity.
  split; [exact Hs|]. split.
  - apply (proj1 (sending_ends_iff_inactive_and_total_positive
                    launched second_answer final_status Hs)).
    eexists. split; [reflexivity|]. split; [reflexivity | reflexivity].
  - reflexivity.
Defined.

(** C5.  With no recipients file selected, [handleStartSending] issues no
    request at all and leaves the sending flag, the log history, the
    progress and the files as they were; it only raises the error toast. *)
Theorem launch_without_recipients_is_refused
    (st : AppState) (response : Response SendReply) :
  recipientsFile st = None ->
  effectsOf (handleStartSending response st) = []
  /\ isSending (stateAfter (handleStartSending response st)) = isSending st
  /\ logs (stateAfter (handleStartSending response st)) = logs st
  /\ progress (stateAfter (handleStartSending response st)) = progress st
  /\ recipientsFile (stateAfter (handleStartSending response st)) = None
  /\ attachmentFile (stateAfter (handleStartSending response st)) = attachmentFile st
  /\ toast (stateAfter (handleStartSending response st)) =
     {| toast_message := "Please select a recipients Excel file";
        toast_type := "error" |}.
Proof.
  intros Hnone.
  unfold handleStartSending, handleStartSending_request, bind, readState.
  rewrite Hnone. cbn. auto 10.
Qed.

(** C5 on the freshly mounted console, where no file is selected. *)
Lemma launch_without_recipients_is_refused_witness :
  recipientsFile initialState = None
  /\ requests (effectsOf (handleStartSending launch_accepted initialState)) = []
  /\ isSending (stateAfter (handleStartSending launch_accepted initialState)) = false.
Proof.
  assert (Hnone : recipientsFile initialState = None) by reflexivity.
  destruct (launch_without_recipients_is_refused initialState launch_accepted Hnone)
    as [He [Hs _]].
  split; [exact Hnone|]. split.
  - now rewrite He.
  - exact Hs.
Defined.

(** C7.  Poll cycles whose request fails (the fetch rejects, or the
    response is not ok) leave the whole console state as it was: progress,
    log history, sending flag and toast.  Each of them has issued its one
    request to [/api/progress], however many fail in a row, and since the
    console is still sending the interval stays installed. *)
Theorem failed_polls_change_nothing
    (st : AppState) (answers : list (Response ProgressData * Response StatusData)) :
  isSending st = true ->
  Forall (fun answer => request_failed (fst answer) = true) answers ->
  stateAfter (pollCycles answers st) = st
  /\ requests (effectsOf (pollCycles answers st)) =
     repeat "/api/progress" (List.length answers).
Proof.
  intros Hs Hall. induction Hall as [|[r s] rest Hr Hrest IH].
  - split; reflexivity.
  - cbn [fst] in Hr.
    assert (Hsame : stateAfter (pollCycle r s st) = st)
      by (apply pollCycle_undecoded; now apply request_failed_undecoded).
    destruct IH as [IHst IHeff]. split.
    + now rewrite pollCycles_cons, Hsame.
    + rewrite pollCycles_cons_effects, Hsame.
      assert (Hreq : forall e1 e2, requests (e1 ++ e2) = (requests e1 ++ requests e2)%list).
      { induction e1 as [|[] e1 IHe]; intros; cbn; [reflexivity | f_equal; apply IHe | apply IHe | apply IHe]. }
      rewrite Hreq, pollCycle_failed_effects, IHeff by assumption. reflexivity.
Qed.

(** C7 on the launched console: a transport error, a 500 answer and
    another transport error in a row. *)
Lemma failed_polls_change_nothing_witness :
  stateAfter (pollCycles [(Rejected "Failed to fetch", final_status);
                          (Resolved false 500 "INTERNAL SERVER ERROR" (inl "Unexpected token"),
                           final_status);
                          (Rejected "Failed to fetch", final_status)] launched) = launched
  /\ requests (effectsOf (pollCycles
       [(Rejected "Failed to fetch", final_status);
        (Resolved false 500 "INTERNAL SERVER ERROR" (inl "Unexpected token"), final_status);
        (Rejected "Failed to fetch", final_status)] launched)) =
     ["/api/progress"; "/api/progress"; "/api/progress"].
Proof.
  apply (failed_polls_change_nothing launched
           [(Rejected "Failed to fetch", final_status);
            (Resolved false 500 "INTERNAL SERVER ERROR" (inl "Unexpected token"), final_status);
            (Rejected "Failed to fetch", final_status)]).
  - reflexivity.
  - repeat constructor.
Defined.

(** C9.  Once [handleStartSending] has sent its request for a selected
    recipients file, the log history holds the local entry
    "Initializing bulk send process with <name>..."; once the launch is
    accepted it also holds the acceptance message.  Both are info entries
    made by the launch, none comes from the server, and the console is
    sending.  The merge step of the next poll compares the server's count
    with this local count: an answer that reports one or two lines finds
    the local count at least as large and records nothing. *)
Theorem launch_fills_history_before_first_poll
    (st : AppState) (recipients : File) (status : Z) (statusText : string)
    (result : SendReply) :
  recipientsFile st = Some recipients ->
  let initializing :=
    {| type := Info;
       message := "Initializing bulk send process with " ++ name recipients ++ "..." |} in
  let acknowledged :=
    {| type := Info;
       message := or_else (reply_message result)
                    "Bulk sending process started successfully" |} in
  let requested := stateAfter (handleStartSending_request st) in
  let accepted :=
    stateAfter (handleStartSending (Resolved true status statusText (inr result)) st) in
  logs requested = [initializing]
  /\ isSending requested = true
  /\ requests (effectsOf (handleStartSending_request st)) = ["/api/send"]
  /\ logs accepted = [initializing; acknowledged]
  /\ isSending accepted = true
  /\ (reportedCount one_line_answer < List.length (logs accepted))%nat
  /\ (forall r s, (reportedCount r <= 2)%nat ->
        logs (stateAfter (pollCycle r s accepted)) = [initializing; acknowledged])
  /\ (forall r s, (reportedCount r <= 1)%nat ->
        logs (stateAfter (pollCycle r s requested)) = [initializing]).
Proof.
  intros Hfile initializing acknowledged requested accepted.
  assert (Hreq : logs requested = [initializing]).
  { unfold requested, handleStartSending_request, bind, readState. rewrite Hfile. reflexivity. }
  assert (Hacc : logs accepted = [initializing; acknowledged]).
  { unfold accepted, handleStartSending, handleStartSending_request, bind, readState.
    rewrite Hfile. reflexivity. }
  split; [exact Hreq|]. split.
  { unfold requested, handleStartSending_request, bind, readState. rewrite Hfile. reflexivity. }
  split.
  { unfold handleStartSending_request, bind, readState. rewrite Hfile.
    destruct (attachmentFile st); reflexivity. }
  split; [exact Hacc|]. split.
  { unfold accepted, handleStartSending, handleStartSending_request, bind, readState.
    rewrite Hfile. reflexivity. }
  split; [rewrite Hacc; cbn; lia|]. split.
  - intros r s Hle. rewrite <- Hacc. apply pollCycle_no_growth. rewrite Hacc. exact Hle.
  - intros r s Hle. rewrite <- Hreq. apply pollCycle_no_growth. rewrite Hreq. exact Hle.
Qed.

(** C9 for the launch of [r.xlsx], polled with a one-line answer. *)
Lemma launch_fills_history_before_first_poll_witness :
  recipientsFile file_selected = Some recipients_xlsx
  /\ logs (stateAfter (handleStartSending_request file_selected)) =
     [ {| type := Info; message := "Initializing bulk send process with r.xlsx..." |} ]
  /\ logs (stateAfter (pollCycle one_line_answer final_status launched)) =
     [ {| type := Info; message := "Initializing bulk send process with r.xlsx..." |};
       {| type := Info; message := "started" |} ].
Proof.
  assert (Hfile : recipientsFile file_selected = Some recipients_xlsx) by reflexivity.
  pose proof (launch_fills_history_before_first_poll file_selected recipients_xlsx
                200 "OK" {| reply_message := Some "started"; reply_error := None |} Hfile)
    as [Hreq [_ [_ [_ [_ [_ [Hpoll _]]]]]]].
  split; [exact Hfile|]. split; [exact Hreq|].
  apply (Hpoll one_line_answer final_status). vm_compute. lia.
Defined.

(** C4 as stated fails twice.  A text with an error marker is not always
    an error entry: one that also has a success marker is a success entry,
    because the success test comes first.  And after a launch the two poll
    answers of the scenario do not leave the five entries: the history
    starts with the launch's own two entries, and a and b are never
    recorded. *)
Lemma error_marker_with_success_marker_is_success :
  error_marker "retry after error: success"
  /\ type (classify "retry after error: success") <> Error
  /\ logs (stateAfter (pollCycles [(first_answer, final_status);
                                   (second_answer, final_status)] launched)) <>
     [ {| type := Info; message := "a" |};
       {| type := Info; message := "b" |};
       {| type := Info; message := "c" |};
       {| type := Success; message := "d ✓" |};
       {| type := Error; message := "error: e" |} ].
Proof.
  split; [|split].
  - apply error_marker_iff. reflexivity.
  - vm_compute. discriminate.
  - vm_compute. discriminate.
Qed.

(** C4, amended.  The category of a log line is a function of its text
    alone, and the entry keeps the text: a text with a success marker is a
    success entry; a text with an error or failure marker and no success
    marker is an error entry; every other text is an info entry.  The five
    lines of the scenario's last poll answer are classified info a,
    info b, info c, success "d ✓", error "error: e". *)
Theorem classify_by_markers :
  (forall text,
      message (classify text) = text
      /\ (success_marker text -> type (classify text) = Success)
      /\ (~ success_marker text -> error_marker text -> type (classify text) = Error)
      /\ (~ success_marker text -> ~ error_marker text -> type (classify text) = Info))
  /\ map classify ["a"; "b"; "c"; "d ✓"; "error: e"] =
     [ {| type := Info; message := "a" |};
       {| type := Info; message := "b" |};
       {| type := Info; message := "c" |};
       {| type := Success; message := "d ✓" |};
       {| type := Error; message := "error: e" |} ].
Proof.
  split.
  - intros text. split; [apply classify_message|]. split; [apply classify_success|].
    split; [apply classify_error | apply classify_info].
  - vm_compute. reflexivity.
Qed.

(** C4, amended, on three log lines. *)
Lemma classify_by_markers_witness :
  type (classify "Message sent successfully") = Success
  /\ type (classify "Sending FAILED for +1234567890") = Error
  /\ type (classify "Opening chat") = Info.
Proof.
  destruct classify_by_markers as [Hkind _].
  split; [|split].
  - apply (proj1 (proj2 (Hkind "Message sent successfully"))).
    apply success_marker_iff. reflexivity.
  - apply (proj1 (proj2 (proj2 (Hkind "Sending FAILED for +1234567890")))).
    + rewrite success_marker_iff. vm_compute. discriminate.
    + apply error_marker_iff. reflexivity.
  - apply (proj2 (proj2 (proj2 (Hkind "Opening chat")))).
    + rewrite success_marker_iff. vm_compute. discriminate.
    + rewrite error_marker_iff. vm_compute. discriminate.
Defined.

(** C10.  The success markers come first: a text that has a success
    marker is classified success whether or not it also has an error or
    failure marker, and a text classified error has no success marker. *)
Theorem success_marker_wins (text : string) :
  (success_marker text -> type (classify text) = Success)
  /\ (type (classify text) = Error -> ~ success_marker text /\ error_marker text).
Proof.
  split.
  - apply classify_success.
  - intros Herr. assert (Hns : ~ success_marker text).
    { apply classify_not_success. rewrite Herr. discriminate. }
    split; [exact Hns|].
    rewrite error_marker_iff. rewrite success_marker_iff in Hns.
    apply not_true_is_false in Hns. unfold classify in Herr. rewrite Hns in Herr.
    destruct (includes text "✗" || includes (toLowerCase text) "error"
              || includes (toLowerCase text) "failed"); [reflexivity | discriminate].
Qed.

(** C10 on a line that carries both kinds of marker. *)
Lemma success_marker_wins_witness :
  error_marker "✓ sent to 3, ✗ failed for 1 (error 500)"
  /\ type (classify "✓ sent to 3, ✗ failed for 1 (error 500)") = Success.
Proof.
  split.
  - apply error_marker_iff. reflexivity.
  - apply (proj1 (success_marker_wins "✓ sent to 3, ✗ failed for 1 (error 500)")).
    apply success_marker_iff. reflexivity.
Defined.

(** The export of the scenario's history: five lines, each the upper-cased
    kind in brackets followed by the text. *)
Lemma exportLogs_scenario :
  exportLogs (map classify ["a"; "b"; "c"; "d ✓"; "error: e"]) =
  join (String (ascii_of_nat 10) EmptyString)
    ["[INFO] a"; "[INFO] b"; "[INFO] c"; "[SUCCESS] d ✓"; "[ERROR] error: e"].
Proof.
  vm_compute. reflexivity.
Qed.

End Run.

(** ** File selection *)
Section FileSelection.

Import FileDropzone Scenario.

Lemma last_app_nonempty {A} (l1 l2 : list A) (d : A) :
  l2 <> [] -> last (l1 ++ l2) d = last l2 d.
Proof.
  intros Hne. induction l1 as [|x l1 IH]; [reflexivity|].
  cbn [app last]. destruct (l1 ++ l2)%list eqn:Happ.
  - apply app_eq_nil in Happ. destruct Happ as [_ ->]. contradiction.
  - exact IH.
Qed.

Lemma includes_cons_sep (sep c : ascii) (s : string) :
  includes (String c s) (String sep "") = (Ascii.eqb c sep || includes s (String sep ""))%bool.
Proof.
  cbn [includes prefix]. destruct (ascii_dec sep c) as [->|Hne].
  - rewrite Ascii.eqb_refl. destruct s; reflexivity.
  - assert (Ascii.eqb c sep = false) as -> by (apply Ascii.eqb_neq; congruence).
    reflexivity.
Qed.

(** A text without the separator is a single piece. *)
Lemma split_without_sep (sep : ascii) (s : string) :
  includes s (String sep "") = false -> split sep s = [s].
Proof.
  induction s as [|c s IH]; [reflexivity|].
  rewrite includes_cons_sep, orb_false_iff. intros [Hc Hs].
  cbn [split]. now rewrite Hc, (IH Hs).
Qed.

(** Splitting around one occurrence of the separator. *)
Lemma split_app_sep (sep : ascii) (a b : string) :
  split sep (a ++ String sep b) = (split sep a ++ split sep b)%list.
Proof.
  induction a as [|c a IH]; cbn [append split].
  - now rewrite Ascii.eqb_refl.
  - destruct (Ascii.eqb c sep).
    + now rewrite IH.
    + rewrite IH. destruct (split sep a) as [|piece pieces] eqn:Hsplit.
      * now apply split_not_nil in Hsplit.
      * reflexivity.
Qed.

(** The code's extension is the lower-cased text after the last dot. *)
Lemma extensionOf_spec (file : File) (ext : string) :
  extension_of_name (name file) ext ->
  extensionOf file = "." ++ toLowerCase ext.
Proof.
  unfold extensionOf, pop. generalize (name file). intros nm H.
  destruct H as [before ext Hdot | nm Hdot].
  - change (before ++ "." ++ ext) with (before ++ String "." ext).
    rewrite split_app_sep, last_app_nonempty by apply split_not_nil.
    now rewrite (split_without_sep "." ext Hdot).
  - now rewrite (split_without_sep "." nm Hdot).
Qed.

Lemma validateFile_false (props : Props) (file : File) :
  ~ In (extensionOf file) (acceptedFormats props) -> validateFile props file = false.
Proof.
  intros Hnot. unfold validateFile. apply not_true_is_false. intros Hex.
  apply existsb_exists in Hex. destruct Hex as [fmt [Hin Heq]].
  apply String.eqb_eq in Heq. subst fmt. contradiction.
Qed.

(** An extension that matches no accepted format even when case is
    ignored is in particular not in the list after lower-casing. *)
Lemma not_listed_ignoring_case (formats : list string) (ext : string) :
  (forall fmt, In fmt formats -> ~ eq_ignoring_case fmt ("." ++ ext)) ->
  ~ In ("." ++ toLowerCase ext) formats.
Proof.
  intros Hall Hin. apply (Hall _ Hin). unfold eq_ignoring_case.
  change ("." ++ toLowerCase ext) with (toLowerCase ("." ++ ext)).
  apply toLowerCase_idempotent.
Qed.




End FileSelection.

(** ** The toast and its timers *)
Section ToastTimers.

Import Toast.

Lemma filter_none {A} (f : A -> bool) (l : list A) :
  (forall x, In x l -> f x = false) -> filter f l = [].
Proof.
  induction l as [|x l IH]; intros H; [reflexivity|].
  cbn. rewrite (H x (or_introl eq_refl)). apply IH. intros y Hy. apply H. now right.
Qed.

Lemma setNow_setNow (a b : nat) (w : World) : setNow a (setNow b w) = setNow a w.
Proof. reflexivity. Qed.

Lemma setNow_now (w : World) : setNow (now w) w = w.
Proof. now destruct w. Qed.

(** A millisecond in which no timer is due only moves the clock. *)
Lemma tick_quiet (w : World) :
  (forall t, In t (timers w) -> S (now w) < due t) ->
  tick w = setNow (S (now w)) w.
Proof.
  intros Hlate. unfold tick. cbn [timers setNow now].
  rewrite filter_none; [reflexivity|].
  intros t Ht. apply Nat.leb_gt. now apply Hlate.
Qed.

Lemma advance_quiet (k : nat) (w : World) :
  (forall t, In t (timers w) -> now w + k < due t) ->
  advance k w = setNow (now w + k) w.
Proof.
  revert w. induction k as [|k IH]; intros w Hlate.
  - cbn. now rewrite Nat.add_0_r, setNow_now.
  - cbn [advance]. rewrite tick_quiet.
    + rewrite IH.
      * cbn [now setNow]. rewrite setNow_setNow. f_equal. lia.
      * cbn [timers now setNow]. intros t Ht. specialize (Hlate t Ht). lia.
    + intros t Ht. specialize (Hlate t Ht). lia.
Qed.

Lemma advance_add (a b : nat) (w : World) :
  advance (a + b) w = advance b (advance a w).
Proof.
  revert w. induction a as [|a IH]; intros w; [reflexivity|].
  cbn [Nat.add advance]. apply IH.
Qed.

(** With a single timer pending, the clock runs up to its due time and
    the timer fires. *)
Lemma advance_to_timer (w : World) (t : Timer) :
  timers w = [t] -> now w < due t ->
  advance (due t - now w) w =
  run (callback t) (clearTimeout (timer_id t) (setNow (due t) w)).
Proof.
  intros Htimers Hlt.
  replace (due t - now w) with ((due t - now w - 1) + 1) by lia.
  rewrite advance_add, (advance_quiet (due t - now w - 1) w).
  - cbn [advance]. unfold tick. cbn [now setNow timers]. rewrite Htimers.
    replace (S (now w + (due t - now w - 1))) with (due t) by lia.
    cbn [filter]. rewrite Nat.leb_refl. cbn [fire timers setNow].
    rewrite Htimers. cbn [existsb]. rewrite Nat.eqb_refl. reflexivity.
  - rewrite Htimers. intros t' [<- | []]. lia.
Qed.

(** From [handleClose] on a toast with nothing else pending: the message
    stays for the 300 ms of the exit animation, then [onClose] clears it. *)
Lemma closing (w : World) (u : nat) :
  message w <> "" -> timers w = [] ->
  message (advance u (handleClose w)) = (if (u <? exitAnimationMs)%nat then message w else "")
  /\ isExiting (advance u (handleClose w)) = (u <? exitAnimationMs)%nat
  /\ timers (advance u (handleClose w)) =
     (if (u <? exitAnimationMs)%nat
      then [ {| timer_id := nextTimerId w; due := now w + exitAnimationMs;
                callback := FinishClose |} ]
      else []).
Proof.
  intros Hmsg Htimers.
  destruct w as [n m ty d vis ex auto ts next]. cbn in Hmsg, Htimers. subst ts.
  destruct m as [|c m]; [contradiction|].
  set (closing_timer := {| timer_id := next; due := n + exitAnimationMs;
                           callback := FinishClose |}).
  set (h := handleClose _).
  assert (Hh : timers h = [closing_timer]) by reflexivity.
  assert (Hnow : now h = n) by reflexivity.
  destruct (Nat.ltb_spec u exitAnimationMs) as [Hlt | Hge].
  - rewrite advance_quiet.
    + repeat split; reflexivity.
    + rewrite Hh, Hnow. intros t [<- | []]. cbn [due closing_timer]. lia.
  - replace u with ((due closing_timer - now h) + (u - exitAnimationMs))
      by (rewrite Hnow; cbn [due closing_timer]; lia).
    rewrite advance_add, (advance_to_timer h closing_timer Hh)
      by (rewrite Hnow; cbn [due closing_timer]; unfold exitAnimationMs; lia).
    assert (Hdone : timers (run (callback closing_timer)
                              (clearTimeout (timer_id closing_timer)
                                 (setNow (due closing_timer) h))) = []
                    /\ message (run (callback closing_timer)
                                  (clearTimeout (timer_id closing_timer)
                                     (setNow (due closing_timer) h))) = ""
                    /\ isExiting (run (callback closing_timer)
                                    (clearTimeout (timer_id closing_timer)
                                       (setNow (due closing_timer) h))) = false).
    { subst h closing_timer. toast_compute. rewrite Nat.eqb_refl.
      destruct auto; toast_compute; repeat split; reflexivity. }
    destruct Hdone as [Hts [Hmsg' Hex]].
    rewrite advance_quiet.
    + cbn [message isExiting timers setNow]. auto.
    + rewrite Hts. intros t [].
Qed.

(** What showing a message in an idle toast sets up. *)
Lemma render_shows (w : World) (m ty : string) (d : nat) :
  idle w -> m <> "" ->
  render m ty d w =
  {| now := now w; message := m; type := ty; duration := d;
     isVisible := true; isExiting := false;
     autoCloseTimer := if (0 <? d)%nat then Some (nextTimerId w) else None;
     timers := if (0 <? d)%nat
               then [ {| timer_id := nextTimerId w; due := now w + d;
                         callback := AutoClose |} ]
               else [];
     nextTimerId := if (0 <? d)%nat then S (nextTimerId w) else nextTimerId w |}.
Proof.
  intros [Hm [Ht Ha]] Hne.
  destruct w as [n m0 ty0 d0 vis ex auto ts next]. cbn in Hm, Ht, Ha. subst.
  destruct m as [|c m]; [contradiction|].
  unfold render. cbn. destruct (d0 =? d)%nat; cbn; destruct d; reflexivity.
Qed.

(** What showing a message sets up when no exit animation is pending and
    the message differs from the one on screen. *)
Lemma render_shows_settled (w : World) (m ty : string) (d : nat) :
  settled w -> message w <> m -> m <> "" ->
  render m ty d w =
  {| now := now w; message := m; type := ty; duration := d;
     isVisible := true; isExiting := false;
     autoCloseTimer := if (0 <? d)%nat then Some (nextTimerId w) else None;
     timers := if (0 <? d)%nat
               then [ {| timer_id := nextTimerId w; due := now w + d;
                         callback := AutoClose |} ]
               else [];
     nextTimerId := if (0 <? d)%nat then S (nextTimerId w) else nextTimerId w |}.
Proof.
  intros Hset Hnew Hne.
  destruct w as [n m0 ty0 d0 vis ex auto ts next].
  unfold settled in Hset. cbn [timers autoCloseTimer message] in Hset, Hnew.
  assert (Hcleared : filter (fun t => negb (timer_id t =? match auto with
                                                         | Some id => id
                                                         | None => 0
                                                         end)%nat) ts = []).
  { apply filter_none. intros t Ht. specialize (Hset t Ht). subst auto.
    now rewrite Nat.eqb_refl. }
  assert (Hnone : auto = None -> ts = []).
  { intros ->. destruct ts as [|t ts]; [reflexivity|].
    discriminate (Hset t (or_introl eq_refl)). }
  apply String.eqb_neq in Hnew. apply String.eqb_neq in Hne.
  unfold render, showEffect, autoCloseEffect, setProps, setState, setAutoCloseTimer,
    clearTimeout, setTimeout.
  cbn [now message type duration isVisible isExiting autoCloseTimer timers nextTimerId].
  rewrite Hnew. cbn [negb orb].
  cbn [now message type duration isVisible isExiting autoCloseTimer timers nextTimerId].
  rewrite Hne.
  cbn [now message type duration isVisible isExiting autoCloseTimer timers nextTimerId].
  destruct auto as [id|].
  - cbn [now message type duration isVisible isExiting autoCloseTimer timers nextTimerId].
    rewrite Hne, Hcleared. cbn [negb andb app].
    destruct (0 <? d)%nat; reflexivity.
  - rewrite (Hnone eq_refl).
    cbn [now message type duration isVisible isExiting autoCloseTimer timers nextTimerId].
    rewrite Hne. cbn [negb andb app].
    destruct (0 <? d)%nat; reflexivity.
Qed.

Lemma mount_empty_idle (d : nat) : idle (mount "" "" d).
Proof. repeat split. Qed.

Lemma idle_settled (w : World) : idle w -> settled w.
Proof. intros [_ [Hts _]] t Ht. rewrite Hts in Ht. destruct Ht. Qed.

Lemma mount_empty_settled (d : nat) : settled (mount "" "" d).
Proof. apply idle_settled, mount_empty_idle. Qed.

(** C8 as stated fails: a toast shown for 100 ms is still rendered 150 ms
    later, in its exit animation. *)
Lemma toast_of_100ms_still_rendered_after_150ms :
  rendered (advance 150 (render "Sent" "success" 100 (mount "" "" defaultDuration))) = true
  /\ isExiting (advance 150 (render "Sent" "success" 100 (mount "" "" defaultDuration))) = true.
Proof.
  split; vm_compute; reflexivity.
Qed.

(** C8, amended.  Take a toast in which no exit animation is pending (no
    timer is pending but the auto-close timer of the message on screen, if
    any) and show a message that differs from the one on screen.  Shown
    with a positive duration it stays rendered for the duration and the
    300 ms of the exit animation that [handleClose] starts when the
    duration has elapsed, and is cleared from then on, without anybody
    dismissing it.  Shown with duration 0 it sets no timer and stays
    rendered however long one waits; dismissed by hand it is cleared 300 ms
    after the click. *)
Theorem toast_clears_after_duration_and_exit_animation
    (w : World) (m ty : string) (d t : nat) :
  settled w -> message w <> m -> m <> "" ->
  (0 < d ->
     message (advance t (render m ty d w)) =
       (if (t <? d + exitAnimationMs)%nat then m else "")
     /\ isExiting (advance t (render m ty d w)) =
        ((d <=? t)%nat && (t <? d + exitAnimationMs)%nat))
  /\ message (advance t (render m ty 0 w)) = m
  /\ timers (advance t (render m ty 0 w)) = []
  /\ (forall u,
        message (advance u (handleClose (advance t (render m ty 0 w)))) =
        (if (u <? exitAnimationMs)%nat then m else "")).
Proof.
  intros Hset Hnew Hne. split; [|split; [|split]].
  - intros Hd. rewrite (render_shows_settled w m ty d Hset Hnew Hne).
    assert (Hpos : (0 <? d)%nat = true) by now apply Nat.ltb_lt.
    rewrite Hpos.
    set (auto_timer := {| timer_id := nextTimerId w; due := now w + d;
                          callback := AutoClose |}).
    set (w0 := Build_World _ _ _ _ _ _ _ _ _).
    assert (Hts : timers w0 = [auto_timer]) by reflexivity.
    destruct (Nat.leb_spec d t) as [Hge | Hlt].
    + set (w1 := clearTimeout (timer_id auto_timer) (setNow (due auto_timer) w0)).
      assert (Hadv : advance t w0 = advance (t - d) (handleClose w1)).
      { replace t with ((due auto_timer - now w0) + (t - d)) at 1
          by (cbn [due auto_timer now w0]; lia).
        rewrite advance_add, (advance_to_timer w0 auto_timer Hts)
          by (cbn [due auto_timer now w0]; lia).
        reflexivity. }
      assert (Hm1 : message w1 = m) by reflexivity.
      assert (Hts1 : timers w1 = []).
      { unfold w1, w0. toast_compute. now rewrite Nat.eqb_refl. }
      destruct (closing w1 (t - d)) as [Hmsg [Hex _]]; [now rewrite Hm1 | exact Hts1 |].
      rewrite Hadv, Hmsg, Hex, Hm1.
      cbn [andb]. unfold exitAnimationMs.
      destruct (Nat.ltb_spec (t - d) 300), (Nat.ltb_spec t (d + 300));
        try lia; auto.
    + rewrite advance_quiet.
      * cbn [message isExiting setNow w0 andb].
        assert (Hin : (t <? d + exitAnimationMs)%nat = true)
          by (apply Nat.ltb_lt; lia).
        rewrite Hin. auto.
      * rewrite Hts. intros t' [<- | []]. cbn [due auto_timer now w0]. lia.
  - rewrite (render_shows_settled w m ty 0 Hset Hnew Hne).
    change (0 <? 0)%nat with false. cbv iota.
    now rewrite advance_quiet by (intros t' Ht; exact (False_ind _ Ht)).
  - rewrite (render_shows_settled w m ty 0 Hset Hnew Hne).
    change (0 <? 0)%nat with false. cbv iota.
    now rewrite advance_quiet by (intros t' Ht; exact (False_ind _ Ht)).
  - intros u. rewrite (render_shows_settled w m ty 0 Hset Hnew Hne).
    change (0 <? 0)%nat with false. cbv iota.
    set (w0 := Build_World _ _ _ _ _ _ _ _ _).
    rewrite (advance_quiet t w0) by (intros t' Ht; exact (False_ind _ Ht)).
    set (w1 := setNow _ _).
    destruct (closing w1 u) as [Hmsg _]; [exact Hne | reflexivity |].
    exact Hmsg.
Qed.

(** C8, amended, for a 100 ms toast at 399 ms and at 400 ms, and for a
    toast without duration after five seconds. *)
Lemma toast_clears_after_duration_and_exit_animation_witness :
  rendered (advance 399 (render "Sent" "success" 100 (mount "" "" defaultDuration))) = true
  /\ rendered (advance 400 (render "Sent" "success" 100 (mount "" "" defaultDuration))) = false
  /\ rendered (advance 5000 (render "Sent" "success" 0 (mount "" "" defaultDuration))) = true.
Proof.
  assert (Hne : "Sent" <> "") by discriminate.
  assert (Hnew : message (mount "" "" defaultDuration) <> "Sent") by discriminate.
  split; [|split].
  - unfold rendered.
    rewrite (proj1 (proj1 (toast_clears_after_duration_and_exit_animation
                             (mount "" "" defaultDuration) "Sent" "success" 100 399
                             (mount_empty_settled defaultDuration) Hnew Hne) (Nat.lt_0_succ 99))).
    reflexivity.
  - unfold rendered.
    rewrite (proj1 (proj1 (toast_clears_after_duration_and_exit_animation
                             (mount "" "" defaultDuration) "Sent" "success" 100 400
                             (mount_empty_settled defaultDuration) Hnew Hne) (Nat.lt_0_succ 99))).
    reflexivity.
  - unfold rendered.
    rewrite (proj1 (proj2 (toast_clears_after_duration_and_exit_animation
                             (mount "" "" defaultDuration) "Sent" "success" 100 5000
                             (mount_empty_settled defaultDuration) Hnew Hne))).
    reflexivity.
Defined.

End ToastTimers.

(** * Further properties of the code *)

(** ** The end of a run and the launch that fails *)
Section CompletionAndLaunch.

Import App Scenario.

Lemma requests_app (e1 e2 : list Effect) :
  requests (e1 ++ e2) = (requests e1 ++ requests e2)%list.
Proof.
  induction e1 as [|[] e1 IH]; cbn; [reflexivity | f_equal; exact IH | exact IH | exact IH].
Qed.

(** The effects and the toast of the poll that ends a run. *)
Lemma pollCycle_completing (st : AppState) (r : Response ProgressData)
    (s : Response StatusData) (data : ProgressData) :
  isSending st = true -> decoded r = Some data ->
  data_is_active data = false -> (0 <? data_total data)%Z = true ->
  requests (effectsOf (pollCycle r s st)) = ["/api/progress"; "/api/status"]
  /\ toast (stateAfter (pollCycle r s st)) =
     match s with
     | Resolved _ _ _ (inr statusData) => toast (stateAfter (completionToast statusData st))
     | _ => toast st
     end.
Proof.
  intros Hs Hd Ha Ht.
  destruct r as [e | [] status text [e | d]]; try discriminate Hd.
  injection Hd as ->. unfold pollCycle, pollCallback. rewrite Hs, Ha, Ht.
  run_act. split_ifs; split; reflexivity.
Qed.

(** The effects and the toast of a poll that decodes and does not end the
    run. *)
Lemma pollCycle_continuing (st : AppState) (r : Response ProgressData)
    (s : Response StatusData) (data : ProgressData) :
  isSending st = true -> decoded r = Some data ->
  negb (data_is_active data) && (0 <? data_total data)%Z = false ->
  requests (effectsOf (pollCycle r s st)) = ["/api/progress"]
  /\ toast (stateAfter (pollCycle r s st)) = toast st.
Proof.
  intros Hs Hd Hc.
  destruct r as [e | [] status text [e | d]]; try discriminate Hd.
  injection Hd as ->. unfold pollCycle, pollCallback. rewrite Hs, Hc.
  run_act. split_ifs; split; reflexivity.
Qed.

(** X1.  The poll that ends a run asks [/api/status] once, right after its
    own request, and stops the sending.  The toast then follows the decoded
    body of that answer alone (the [ok] flag of the status response is not
    looked at), for a body whose counts are integers or missing: type
    success when [failureCount] is 0 or [successCount] is above 0, type
    error otherwise.  With both counts present and safe integers the text
    is "All N messages sent successfully!" when there is no failure and
    "Completed: N sent, M failed" otherwise; with both counts missing it is
    "Completed: undefined sent, undefined failed", of type error.  When the
    status request rejects or its body does not decode, the toast stays as
    it was.  A poll that does not end the run asks for no status and leaves
    the toast alone. *)
Theorem completion_fetches_status_and_sets_toast
    (st : AppState) (r : Response ProgressData) (s : Response StatusData) :
  isSending st = true ->
  (completesRun r = true ->
     requests (effectsOf (pollCycle r s st)) = ["/api/progress"; "/api/status"]
     /\ isSending (stateAfter (pollCycle r s st)) = false
     /\ match s with
        | Resolved _ _ _ (inr statusData) =>
            (toast_type (toast (stateAfter (pollCycle r s st))) = "success" <->
             (failureCount statusData = Some 0%Z
              \/ exists succeeded, successCount statusData = Some succeeded
                                   /\ (0 < succeeded)%Z))
            /\ (toast_type (toast (stateAfter (pollCycle r s st))) = "error" <->
                (failureCount statusData <> Some 0%Z
                 /\ forall succeeded, successCount statusData = Some succeeded ->
                                      (succeeded <= 0)%Z))
            /\ (forall succeeded failed,
                  successCount statusData = Some succeeded ->
                  failureCount statusData = Some failed ->
                  safe_integer succeeded -> safe_integer failed ->
                  toast_message (toast (stateAfter (pollCycle r s st))) =
                  (if (failed =? 0)%Z
                   then "All " ++ number_to_string succeeded
                        ++ " messages sent successfully!"
                   else "Completed: " ++ number_to_string succeeded
                        ++ " sent, " ++ number_to_string failed ++ " failed"))
            /\ (successCount statusData = None -> failureCount statusData = None ->
                toast (stateAfter (pollCycle r s st)) =
                {| toast_message := "Completed: undefined sent, undefined failed";
                   toast_type := "error" |})
        | _ => toast (stateAfter (pollCycle r s st)) = toast st
        end)
  /\ (completesRun r = false ->
        requests (effectsOf (pollCycle r s st)) = ["/api/progress"]
        /\ toast (stateAfter (pollCycle r s st)) = toast st).
Proof.
  intros Hs. unfold completesRun. destruct (decoded r) as [data|] eqn:Hd.
  - split; intros Hc.
    + apply andb_true_iff in Hc. destruct Hc as [Ha Ht].
      apply negb_true_iff in Ha.
      destruct (pollCycle_completing st r s data Hs Hd Ha Ht) as [Hreq Htoast].
      split; [exact Hreq|]. split.
      { rewrite (pollCycle_isSending r s st data Hs Hd), Ha, Ht. reflexivity. }
      rewrite Htoast.
      destruct s as [e | ok' status' text' [e | statusData]]; try reflexivity.
      unfold completionToast, showToast, setToast, stateAfter.
      destruct statusData as [[succeeded|] [failed|]]; cbn [successCount failureCount
        is_zero is_positive count_to_string].
      * destruct (Z.eqb_spec failed 0) as [-> | Hf]; cbn.
        -- split; [split; auto|]. split; [split; [discriminate | intros [Hne _]; congruence]|].
           split; [|discriminate].
           intros n m Hn Hm _ _. injection Hn as <-. injection Hm as <-. reflexivity.
        -- assert (Hfail : Some failed <> Some 0%Z) by congruence.
           destruct (Z.ltb_spec 0 succeeded) as [Hp | Hp]; cbn.
           ++ split; [split; eauto|].
              split; [split; [discriminate | intros [_ Hle]; specialize (Hle _ eq_refl); lia]|].
              split; [|discriminate].
              intros n m Hn Hm _ _. injection Hn as <-. injection Hm as <-.
              destruct (Z.eqb_spec failed 0); [contradiction | reflexivity].
           ++ split; [split; [discriminate | intros [? | [n [Hn ?]]];
                                [contradiction | injection Hn as <-; lia]]|].
              split; [split; [intros _; split; [exact Hfail|];
                              intros n Hn; injection Hn as <-; exact Hp | reflexivity]|].
              split; [|discriminate].
              intros n m Hn Hm _ _. injection Hn as <-. injection Hm as <-.
              destruct (Z.eqb_spec failed 0); [contradiction | reflexivity].
      * destruct (Z.ltb_spec 0 succeeded) as [Hp | Hp]; cbn.
        -- split; [split; eauto|].
           split; [split; [discriminate | intros [_ Hle]; specialize (Hle _ eq_refl); lia]|].
           split; discriminate.
        -- split; [split; [discriminate | intros [? | [n [Hn ?]]];
                             [discriminate | injection Hn as <-; lia]]|].
           split; [split; [intros _; split; [discriminate|];
                           intros n Hn; injection Hn as <-; exact Hp | reflexivity]|].
           split; discriminate.
      * destruct (Z.eqb_spec failed 0) as [-> | Hf]; cbn.
        -- split; [split; auto|]. split; [split; [discriminate | intros [Hne _]; congruence]|].
           split; discriminate.
        -- assert (Hfail : Some failed <> Some 0%Z) by congruence.
           split; [split; [discriminate | intros [? | [n [Hn ?]]];
                             [contradiction | discriminate]]|].
           split; [split; [intros _; split; [exact Hfail | discriminate] | reflexivity]|].
           split; discriminate.
      * cbn. split; [split; [discriminate | intros [? | [n [Hn ?]]]; discriminate]|].
        split; [split; [intros _; split; discriminate | reflexivity]|].
        split; [discriminate | reflexivity].
    + exact (pollCycle_continuing st r s data Hs Hd Hc).
  - split; intros Hc; [discriminate|].
    assert (Hsame : stateAfter (pollCycle r s st) = st) by now apply pollCycle_undecoded.
    rewrite Hsame. split; [|reflexivity].
    unfold pollCycle. rewrite Hs.
    destruct r as [e | [] status text [e | d]]; try discriminate Hd; reflexivity.
Qed.

(** X1 on the launched console: the scenario's last answer ends the run,
    and four successes with one failure give a success toast. *)
Lemma completion_fetches_status_and_sets_toast_witness :
  isSending launched = true
  /\ requests (effectsOf (pollCycle second_answer final_status launched)) =
     ["/api/progress"; "/api/status"]
  /\ toast_message (toast (stateAfter (pollCycle second_answer final_status launched))) =
     "Completed: 4 sent, 1 failed"
  /\ toast_type (toast (stateAfter (pollCycle second_answer final_status launched))) =
     "success".
Proof.
  assert (Hs : isSending launched = true) by reflexivity.
  destruct (proj1 (completion_fetches_status_and_sets_toast
                     launched second_answer final_status Hs) eq_refl)
    as [Hreq [_ [Hsuccess [_ [Hmessage _]]]]].
  split; [exact Hs|]. split; [exact Hreq|]. split.
  - rewrite (Hmessage 4%Z 1%Z eq_refl eq_refl); [reflexivity | |]; split; reflexivity.
  - apply Hsuccess. right. exists 4%Z. split; reflexivity.
Defined.

End CompletionAndLaunch.

(** ** What no sequence of events can do *)
Section Reachable.

Import App Scenario.

(** The history after a poll callback, whatever history it closed over. *)
Lemma pollCallback_logs (closure_logs : list LogEntry) (r : Response ProgressData)
    (s : Response StatusData) (st : AppState) :
  logs (stateAfter (pollCallback closure_logs r s st)) =
  match decoded r with
  | Some data =>
      match data_logs data with
      | Some lines =>
          if (List.length closure_logs <? List.length lines)%nat
          then (logs st ++ map classify (skipn (List.length closure_logs) lines))%list
          else logs st
      | None => logs st
      end
  | None => logs st
  end.
Proof.
  destruct r as [e | [] status text [e | data]]; cbn [decoded]; try reflexivity.
  run_act. split_ifs; reflexivity.
Qed.

(** A poll callback never touches the files and never starts a run. *)
Lemma pollCallback_frame (closure_logs : list LogEntry) (r : Response ProgressData)
    (s : Response StatusData) (st : AppState) :
  recipientsFile (stateAfter (pollCallback closure_logs r s st)) = recipientsFile st
  /\ attachmentFile (stateAfter (pollCallback closure_logs r s st)) = attachmentFile st
  /\ (isSending (stateAfter (pollCallback closure_logs r s st)) = true ->
      isSending st = true).
Proof.
  run_act. split_ifs; repeat split; auto; discriminate.
Qed.

Lemma In_skipn {A} (n : nat) (l : list A) (x : A) : In x (skipn n l) -> In x l.
Proof.
  intros H. rewrite <- (firstn_skipn n l). apply in_or_app. now right.
Qed.

(** What a poll callback appends: classified lines of its own answer. *)
Lemma pollCallback_appends (closure_logs : list LogEntry) (r : Response ProgressData)
    (s : Response StatusData) (st : AppState) :
  exists fresh,
    logs (stateAfter (pollCallback closure_logs r s st)) =
    (logs st ++ map classify fresh)%list
    /\ incl fresh (reportedLines [(r, s)]).
Proof.
  rewrite pollCallback_logs. cbn [reportedLines]. rewrite app_nil_r.
  destruct (decoded r) as [data|];
    [destruct (data_logs data) as [lines|];
     [destruct (List.length closure_logs <? List.length lines)%nat|]|].
  - exists (skipn (List.length closure_logs) lines). split; [reflexivity|].
    intros x Hx. now apply In_skipn in Hx.
  - exists []. split; [now rewrite app_nil_r | intros x []].
  - exists []. split; [now rewrite app_nil_r | intros x []].
  - exists []. split; [now rewrite app_nil_r | intros x []].
Qed.

(** The files after a choice or a drop: the slot keeps its file or takes a
    file that passed validation; the other slot keeps its file. *)
Lemma dropzoneEffects_files (slot : Slot) (props : FileDropzone.Props)
    (effects : list FileDropzone.Effect) (st : AppState) :
  (forall f, In (Some f) (FileDropzone.selections effects) ->
             FileDropzone.validateFile props f = true) ->
  ~ In None (FileDropzone.selections effects) ->
  let st' := stateAfter (dropzoneEffects slot effects st) in
  isSending st' = isSending st /\ logs st' = logs st
  /\ match slot with
     | Recipients =>
         attachmentFile st' = attachmentFile st
         /\ (recipientsFile st' = recipientsFile st
             \/ exists f, recipientsFile st' = Some f
                          /\ FileDropzone.validateFile props f = true)
     | Attachment =>
         recipientsFile st' = recipientsFile st
         /\ (attachmentFile st' = attachmentFile st
             \/ exists f, attachmentFile st' = Some f
                          /\ FileDropzone.validateFile props f = true)
     end.
Proof.
  revert st. induction effects as [|e effects IH]; intros st Hvalid Hnone.
  - destruct slot; cbn; auto.
  - destruct e as [file | | | |]; cbn [dropzoneEffects FileDropzone.selections] in *;
      try (apply IH; assumption).
    destruct file as [f|]; [|exfalso; apply Hnone; now left].
    assert (Hf : FileDropzone.validateFile props f = true) by (apply Hvalid; now left).
    assert (Hrest : forall g, In (Some g) (FileDropzone.selections effects) ->
                              FileDropzone.validateFile props g = true)
      by (intros g Hg; apply Hvalid; now right).
    assert (Hnone' : ~ In None (FileDropzone.selections effects))
      by (intros Hin; apply Hnone; now right).
    pose proof (IH (stateAfter (onFileSelect slot (Some f) st)) Hrest Hnone') as H.
    cbv zeta in H |- *.
    replace (stateAfter ((onFileSelect slot (Some f);; dropzoneEffects slot effects) st))
      with (stateAfter (dropzoneEffects slot effects
                          (stateAfter (onFileSelect slot (Some f) st)))).
    + destruct slot; cbn in H |- *; destruct H as [Hs [Hl [Ho Hsel]]];
        (split; [exact Hs | split; [exact Hl | split; [exact Ho|]]]);
        right; destruct Hsel as [Hsame | Hnew]; eauto.
    + unfold bind, stateAfter. destruct slot; cbn;
        destruct (dropzoneEffects _ effects _) as [[u st2] e2]; reflexivity.
Qed.

(** Both handlers pass on only a file that passed validation. *)
Lemma handlers_select_validated (props : FileDropzone.Props) (files : list File)
    (isDragActive : bool) :
  (forall f, In (Some f) (FileDropzone.selections (FileDropzone.handleFileInput props files)) ->
             FileDropzone.validateFile props f = true)
  /\ ~ In None (FileDropzone.selections (FileDropzone.handleFileInput props files))
  /\ (forall f, In (Some f) (FileDropzone.selections
                               (snd (FileDropzone.handleDrop props files isDragActive))) ->
                FileDropzone.validateFile props f = true)
  /\ ~ In None (FileDropzone.selections
                  (snd (FileDropzone.handleDrop props files isDragActive))).
Proof.
  unfold FileDropzone.handleFileInput, FileDropzone.handleDrop.
  destruct files as [|file others]; cbn.
  - destruct (FileDropzone.disabled props); cbn; repeat split; intros; tauto.
  - destruct (FileDropzone.validateFile props file) eqn:Hv;
      destruct (FileDropzone.disabled props); cbn;
      repeat split; try tauto;
      try (intros f [Heq | []]; injection Heq as <-; exact Hv);
      try (intros [Heq | []]; discriminate Heq).
Qed.


(** The state after the synchronous part of a launch. *)
Lemma handleStartSending_request_state (st : AppState) (recipients : File) :
  recipientsFile st = Some recipients ->
  stateAfter (handleStartSending_request st) =
  {| recipientsFile := Some recipients; attachmentFile := attachmentFile st;
     isSending := true; progress := {| current := 0; total := 0 |};
     logs := [ {| type := Info;
                  message := "Initializing bulk send process with "
                             ++ name recipients ++ "..." |} ];
     toast := toast st |}.
Proof.
  intros H. unfold handleStartSending_request, bind, readState. rewrite H.
  cbn. now rewrite H.
Qed.

(** The rest of a launch keeps the files, never starts a run and only
    appends to the history. *)
Lemma handleStartSending_settled_frame (response : Response SendReply) (st : AppState) :
  recipientsFile (stateAfter (handleStartSending_settled response st)) = recipientsFile st
  /\ attachmentFile (stateAfter (handleStartSending_settled response st)) = attachmentFile st
  /\ (isSending (stateAfter (handleStartSending_settled response st)) = true ->
      isSending st = true)
  /\ exists entry,
       logs (stateAfter (handleStartSending_settled response st)) = (logs st ++ [entry])%list.
Proof.
  unfold handleStartSending_settled, sendFailed, showToast, bind.
  destruct response as [e | [] status text [e | reply]]; cbn;
    repeat split; auto; try discriminate; eexists; reflexivity.
Qed.

(** X3.  However the controls are used and whatever the server answers,
    late or overlapping continuations included, a console that is sending
    has a recipients file selected and a log history that is not empty. *)
Theorem sending_console_has_file_and_history (st : AppState) :
  reachable st -> isSending st = true ->
  recipientsFile st <> None /\ logs st <> [].
Proof.
  intros Hreach. induction Hreach as [|st st' Hreach IH Hstep]; [discriminate|].
  destruct Hstep as [st Hstart | st response | st closure r s | st Hidle | st Hshown
                    | st Hshown | st slot files Hidle | st slot files drag
                    | st slot Hidle | st].
  - intros _. unfold startDisabled in Hstart.
    destruct (recipientsFile st) as [recipients|] eqn:Hfile; [|discriminate].
    rewrite (handleStartSending_request_state st recipients Hfile). cbn.
    split; discriminate.
  - destruct (handleStartSending_settled_frame response st)
      as [Hr [_ [Hs [entry Hl]]]].
    intros Hsend. destruct (IH (Hs Hsend)) as [Hfile _].
    rewrite Hr, Hl. split; [exact Hfile|]. now destruct (logs st).
  - destruct (pollCallback_frame closure r s st) as [Hr [_ Hs]].
    destruct (pollCallback_appends closure r s st) as [fresh [Hl _]].
    intros Hsend. destruct (IH (Hs Hsend)) as [Hfile Hlogs].
    rewrite Hr, Hl. split; [exact Hfile|]. now destruct (logs st).
  - cbn. intros Hsend. congruence.
  - unfold clearLogsShown in Hshown. apply andb_true_iff in Hshown.
    destruct Hshown as [_ Hnot]. apply negb_true_iff in Hnot.
    cbn. intros Hsend. congruence.
  - unfold exportShown in Hshown. apply andb_true_iff in Hshown.
    destruct Hshown as [Hshown _]. apply andb_true_iff in Hshown.
    destruct Hshown as [Hnot _]. apply negb_true_iff in Hnot.
    cbn. intros Hsend. congruence.
  - destruct (handlers_select_validated (dropzoneProps slot st) files false)
      as [Hv [Hn _]].
    destruct (dropzoneEffects_files slot _ _ st Hv Hn) as [Hs _].
    unfold chooseFile. intros Hsend. congruence.
  - destruct (handlers_select_validated (dropzoneProps slot st) files drag)
      as [_ [_ [Hv Hn]]].
    pose proof (dropzoneEffects_files slot _ _ st Hv Hn) as H. cbv zeta in H.
    destruct H as [Hs [Hl Hfiles]].
    unfold dropFile. intros Hsend. rewrite Hs in Hsend.
    destruct (IH Hsend) as [Hfile Hlogs]. rewrite Hl. split; [|exact Hlogs].
    destruct slot.
    + destruct Hfiles as [_ [Hsame | [f [Hnew _]]]]; [now rewrite Hsame | now rewrite Hnew].
    + destruct Hfiles as [Hsame _]. now rewrite Hsame.
  - destruct slot; cbn; intros Hsend; congruence.
  - cbn. exact IH.
Qed.

Lemma launched_reachable : reachable launched.
Proof.
  apply (reachable_step
           (stateAfter (handleStartSending_request file_selected)) launched).
  - apply (reachable_step file_selected).
    + apply (reachable_step initialState file_selected reachable_initial).
      exact (step_chooseFile initialState Recipients [recipients_xlsx] eq_refl).
    + exact (step_startSending file_selected eq_refl).
  - exact (step_sendSettled (stateAfter (handleStartSending_request file_selected))
             launch_accepted).
Qed.

(** X3 on the console after the launch of [r.xlsx] was accepted. *)
Lemma sending_console_has_file_and_history_witness :
  reachable launched /\ isSending launched = true
  /\ recipientsFile launched <> None /\ logs launched <> [].
Proof.
  split; [exact launched_reachable|]. split; [reflexivity|].
  exact (sending_console_has_file_and_history launched launched_reachable eq_refl).
Defined.



End Reachable.

(** ** The launch that fails *)
Section FailedLaunch.

Import App Scenario.




End FailedLaunch.

(** ** More on the merge of server lines *)
Section Merge.

Import App Scenario.

(** X5.  A run of poll cycles only ever appends to the log history: what
    was there stays first, unchanged and in order, and every entry added is
    the classification of a line that one of the answers reported. *)
Theorem polls_only_append
    (answers : list (Response ProgressData * Response StatusData)) (st : AppState) :
  exists fresh,
    logs (stateAfter (pollCycles answers st)) = (logs st ++ map classify fresh)%list
    /\ incl fresh (reportedLines answers).
Proof.
  revert st. induction answers as [|[r s] rest IH]; intros st.
  - exists []. split; [cbn; now rewrite app_nil_r | intros x []].
  - rewrite pollCycles_cons.
    destruct (IH (stateAfter (pollCycle r s st))) as [fresh2 [Hl2 Hin2]].
    assert (H1 : exists fresh1,
               logs (stateAfter (pollCycle r s st)) = (logs st ++ map classify fresh1)%list
               /\ incl fresh1 (reportedLines [(r, s)])).
    { unfold pollCycle. destruct (isSending st).
      - apply pollCallback_appends.
      - exists []. split; [cbn; now rewrite app_nil_r | intros x []]. }
    destruct H1 as [fresh1 [Hl1 Hin1]].
    exists (fresh1 ++ fresh2)%list. split.
    + now rewrite Hl2, Hl1, map_app, app_assoc.
    + cbn [reportedLines] in Hin1 |- *. rewrite app_nil_r in Hin1.
      intros x Hx. apply in_app_or in Hx. apply in_or_app.
      destruct Hx as [Hx | Hx]; [left; now apply Hin1 | right; now apply Hin2].
Qed.

(** X6.  Two poll callbacks that closed over the same history, as happens
    when a tick fires before the previous request has been answered, each
    append the lines of their own answer beyond that history's length: the
    lines both answers report are recorded twice. *)
Theorem overlapping_callbacks_record_lines_twice
    (st : AppState) (r1 r2 : Response ProgressData) (s1 s2 : Response StatusData)
    (data1 data2 : ProgressData) (lines1 lines2 : list string) :
  decoded r1 = Some data1 -> data_logs data1 = Some lines1 ->
  decoded r2 = Some data2 -> data_logs data2 = Some lines2 ->
  (List.length (logs st) < List.length lines1)%nat ->
  (List.length (logs st) < List.length lines2)%nat ->
  logs (stateAfter (pollCallback (logs st) r2 s2
                      (stateAfter (pollCallback (logs st) r1 s1 st)))) =
  (logs st
   ++ map classify (skipn (List.length (logs st)) lines1)
   ++ map classify (skipn (List.length (logs st)) lines2))%list.
Proof.
  intros Hd1 Hl1 Hd2 Hl2 Hlt1 Hlt2.
  rewrite !pollCallback_logs, Hd1, Hl1, Hd2, Hl2.
  apply Nat.ltb_lt in Hlt1, Hlt2. rewrite Hlt1, Hlt2.
  now rewrite app_assoc.
Qed.

(** X6 on the launched console: the scenario's two answers, delivered to
    two callbacks that both closed over the history of the launch, leave c
    twice. *)
Lemma overlapping_callbacks_record_lines_twice_witness :
  logs (stateAfter (pollCallback (logs launched) second_answer final_status
                      (stateAfter (pollCallback (logs launched) first_answer
                                     final_status launched)))) =
  (logs launched ++ map classify ["c"; "c"; "d ✓"; "error: e"])%list.
Proof.
  rewrite (overlapping_callbacks_record_lines_twice launched
             first_answer second_answer final_status final_status
             _ _ ["a"; "b"; "c"] ["a"; "b"; "c"; "d ✓"; "error: e"]
             eq_refl eq_refl eq_refl eq_refl);
    [reflexivity | cbn; lia | cbn; lia].
Defined.

End Merge.

(** ** Statistics and export *)
Section StatsAndExport.

Import App Scenario.

Lemma getLogStats_from (history : list LogEntry) (acc : ProgressLog.LogStats) :
  ProgressLog.success (fold_left ProgressLog.countLog history acc) =
    ProgressLog.success acc
    + List.length (filter (fun log => LogType_eqb (type log) Success) history)
  /\ ProgressLog.error (fold_left ProgressLog.countLog history acc) =
     ProgressLog.error acc
     + List.length (filter (fun log => LogType_eqb (type log) Error) history)
  /\ ProgressLog.info (fold_left ProgressLog.countLog history acc) =
     ProgressLog.info acc
     + List.length (filter (fun log => LogType_eqb (type log) Info) history).
Proof.
  revert acc. induction history as [|log history IH]; intros acc.
  - cbn. lia.
  - cbn [fold_left filter]. destruct (IH (ProgressLog.countLog acc log)) as [Hs [He Hi]].
    rewrite Hs, He, Hi. clear IH Hs He Hi. unfold ProgressLog.countLog.
    destruct (type log); cbn; repeat split; try reflexivity;
      now rewrite <- Nat.add_assoc.
Qed.

Lemma types_partition (history : list LogEntry) :
  List.length (filter (fun log => LogType_eqb (type log) Success) history)
  + List.length (filter (fun log => LogType_eqb (type log) Error) history)
  + List.length (filter (fun log => LogType_eqb (type log) Info) history)
  = List.length history.
Proof.
  induction history as [|log history IH]; [reflexivity|].
  cbn [filter List.length]. rewrite <- IH. clear IH.
  destruct (type log); cbn [LogType_eqb List.length]; abstract_lengths; lia.
Qed.

(** X7.  The two places that count log entries agree: the success and
    failed figures of the quick statistics are the success and error counts
    of the progress log, and together with the info count they add up to the
    number of entries, so [totalProcessed] is the number of entries that are
    not info. *)
Theorem statistics_agree_and_add_up (st : AppState) :
  summary_successCount (getSummaryStats st) =
    ProgressLog.success (ProgressLog.getLogStats (logs st))
  /\ summary_errorCount (getSummaryStats st) =
     ProgressLog.error (ProgressLog.getLogStats (logs st))
  /\ summary_totalProcessed (getSummaryStats st)
     + ProgressLog.info (ProgressLog.getLogStats (logs st)) = List.length (logs st).
Proof.
  unfold ProgressLog.getLogStats, getSummaryStats.
  destruct (getLogStats_from (logs st)
              {| ProgressLog.success := 0; ProgressLog.error := 0; ProgressLog.info := 0 |})
    as [Hs [He Hi]].
  rewrite Hs, He, Hi. cbn [summary_successCount summary_errorCount summary_totalProcessed
                           ProgressLog.success ProgressLog.error ProgressLog.info].
  split; [reflexivity | split; [reflexivity|]]. cbn [Nat.add].
  apply types_partition.
Qed.

Lemma includes_app_sep (sep : ascii) (a b : string) :
  includes (a ++ b) (String sep "") =
  (includes a (String sep "") || includes b (String sep ""))%bool.
Proof.
  induction a as [|c a IH].
  - cbn [append]. destruct b; reflexivity.
  - cbn [append]. rewrite !includes_cons_sep, IH. now rewrite orb_assoc.
Qed.

(** Splitting what [join] glued gives the pieces back, when there is at
    least one piece and no piece holds the separator. *)
Lemma split_join (sep : ascii) (pieces : list string) :
  pieces <> [] ->
  Forall (fun piece => includes piece (String sep "") = false) pieces ->
  split sep (join (String sep "") pieces) = pieces.
Proof.
  intros Hne Hall. induction Hall as [|piece rest Hpiece Hrest IH]; [contradiction|].
  destruct rest as [|next rest].
  - cbn [join]. now apply split_without_sep.
  - change (join (String sep "") (piece :: next :: rest))
      with (piece ++ String sep (join (String sep "") (next :: rest))).
    rewrite split_app_sep, IH by discriminate.
    now rewrite (split_without_sep sep piece Hpiece).
Qed.

Lemma exportLine_injective (a b : LogEntry) : exportLine a = exportLine b -> a = b.
Proof.
  destruct a as [ta ma], b as [tb mb]. unfold exportLine.
  destruct ta, tb; cbn; intros H; inversion H; reflexivity.
Qed.

Lemma map_exportLine_injective (h1 h2 : list LogEntry) :
  map exportLine h1 = map exportLine h2 -> h1 = h2.
Proof.
  revert h2. induction h1 as [|a h1 IH]; intros [|b h2] H; try discriminate H.
  - reflexivity.
  - assert (Hline : exportLine a = exportLine b) by exact (f_equal (hd "") H).
    assert (Hrest : map exportLine h1 = map exportLine h2) by exact (f_equal (@tl _) H).
    now rewrite (exportLine_injective a b Hline), (IH h2 Hrest).
Qed.

Lemma exportLine_one_line (log : LogEntry) :
  includes (message log) (String (ascii_of_nat 10) "") = false ->
  includes (exportLine log) (String (ascii_of_nat 10) "") = false.
Proof.
  intros H. unfold exportLine. rewrite !includes_app_sep, H.
  destruct (type log); reflexivity.
Qed.

Lemma exportLogs_lines (history : list LogEntry) :
  history <> [] ->
  Forall (fun log => includes (message log) (String (ascii_of_nat 10) "") = false) history ->
  split (ascii_of_nat 10) (exportLogs history) = map exportLine history.
Proof.
  intros Hne Hall. unfold exportLogs.
  change (map (fun log => "[" ++ toUpperCase (LogType_to_string (type log)) ++ "] "
                          ++ message log) history)
    with (map exportLine history).
  apply split_join.
  - destruct history; [contradiction | discriminate].
  - induction Hall as [|log rest Hlog Hrest IH]; constructor.
    + now apply exportLine_one_line.
    + destruct rest; [constructor | apply IH; discriminate].
Qed.

(** X8.  The export of a history that is not empty and whose messages hold
    no line feed has exactly one line per entry, in order, each made of the
    upper-cased type in brackets, a space and the message; and the history
    can be read back from it: two such histories with the same export are
    the same history. *)
Theorem export_has_one_line_per_entry (history other : list LogEntry) :
  history <> [] ->
  Forall (fun log => includes (message log) (String (ascii_of_nat 10) "") = false) history ->
  split (ascii_of_nat 10) (exportLogs history) = map exportLine history
  /\ (other <> [] ->
      Forall (fun log => includes (message log) (String (ascii_of_nat 10) "") = false) other ->
      exportLogs other = exportLogs history -> other = history).
Proof.
  intros Hne Hall. split; [now apply exportLogs_lines|].
  intros Hne' Hall' Heq. apply map_exportLine_injective.
  rewrite <- (exportLogs_lines other Hne' Hall'), <- (exportLogs_lines history Hne Hall).
  now rewrite Heq.
Qed.

(** X8 on the history of the scenario. *)
Lemma export_has_one_line_per_entry_witness :
  split (ascii_of_nat 10)
    (exportLogs (map classify ["a"; "b"; "c"; "d ✓"; "error: e"])) =
  ["[INFO] a"; "[INFO] b"; "[INFO] c"; "[SUCCESS] d ✓"; "[ERROR] error: e"].
Proof.
  refine (proj1 (export_has_one_line_per_entry
                   (map classify ["a"; "b"; "c"; "d ✓"; "error: e"]) [] _ _)).
  - discriminate.
  - repeat constructor.
Defined.

End StatsAndExport.

(** ** More on file selection *)
Section FileAcceptance.

Import FileDropzone Scenario.

Lemma validateFile_true (props : Props) (file : File) :
  In (extensionOf file) (acceptedFormats props) -> validateFile props file = true.
Proof.
  intros Hin. unfold validateFile. apply existsb_exists.
  exists (extensionOf file). split; [exact Hin | apply String.eqb_refl].
Qed.

(** X9.  A candidate whose extension is ASCII text and, lower-cased and
    preceded by a dot, is in the accepted formats is passed to
    [onFileSelect], and it alone: the files offered after the first are
    ignored.  The file input always selects it; a drop selects it unless
    the dropzone is disabled, and always ends the drag highlight.  In
    [App], whose lists hold ASCII formats only, the slot then holds that
    file, replacing whatever it held, and a drop while sending changes
    nothing. *)
Theorem accepted_file_is_selected
    (file : File) (others : list File) (ext : string) (isDragActive : bool) :
  extension_of_name (name file) ext ->
  (forall props,
      ascii_only ext = true ->
      In ("." ++ toLowerCase ext) (acceptedFormats props) ->
      handleFileInput props (file :: others) = [OnFileSelect (Some file)]
      /\ selections (snd (handleDrop props (file :: others) isDragActive)) =
         (if disabled props then [] else [Some file])
      /\ fst (handleDrop props (file :: others) isDragActive) = false)
  /\ (forall slot st,
        In ("." ++ toLowerCase ext) (acceptedFormats (App.dropzoneProps slot st)) ->
        App.stateAfter (App.chooseFile slot (file :: others) st) =
          App.stateAfter (App.onFileSelect slot (Some file) st)
        /\ App.stateAfter (App.dropFile slot (file :: others) isDragActive st) =
           (if App.isSending st then st
            else App.stateAfter (App.onFileSelect slot (Some file) st))).
Proof.
  intros Hext.
  assert (Hval : forall props,
             In ("." ++ toLowerCase ext) (acceptedFormats props) ->
             validateFile props file = true).
  { intros props Hin. apply validateFile_true.
    now rewrite (extensionOf_spec file ext Hext). }
  split.
  - intros props _ Hin. unfold handleFileInput, handleDrop. rewrite (Hval props Hin).
    cbn. destruct (disabled props); repeat split; reflexivity.
  - intros slot st Hin. unfold App.chooseFile, App.dropFile, handleFileInput, handleDrop.
    rewrite (Hval _ Hin).
    split; [destruct slot; reflexivity|].
    destruct slot; cbn [App.dropzoneProps disabled];
      destruct (App.isSending st) eqn:Hs; cbn; rewrite ?Hs; reflexivity.
Qed.

(** X9 for [LIST.XLSX] dropped on the recipients slot of a fresh console. *)
Lemma accepted_file_is_selected_witness :
  App.recipientsFile
    (App.stateAfter
       (App.dropFile App.Recipients
          [ {| name := "LIST.XLSX"; size := 9000; Browser.type := "" |} ]
          true App.initialState)) =
  Some {| name := "LIST.XLSX"; size := 9000; Browser.type := "" |}.
Proof.
  rewrite (proj2 (proj2 (accepted_file_is_selected
                           {| name := "LIST.XLSX"; size := 9000; Browser.type := "" |}
                           [] "XLSX" true (after_last_dot "LIST" "XLSX" eq_refl))
                    App.Recipients App.initialState (or_introl eq_refl))).
  reflexivity.
Defined.

(** X10.  Only an accepted format written as a dot followed by text
    without upper-case letters can ever match: when every entry of the list
    has an upper-case letter or lacks the leading dot, no file at all is
    passed to [onFileSelect]. *)
Theorem formats_must_be_dotted_lower_case
    (props : Props) (files : list File) (isDragActive : bool) :
  (forall fmt, In fmt (acceptedFormats props) ->
               toLowerCase fmt <> fmt \/ String.prefix "." fmt = false) ->
  selections (handleFileInput props files) = []
  /\ selections (snd (handleDrop props files isDragActive)) = [].
Proof.
  intros Hbad.
  assert (Hrej : forall file, validateFile props file = false).
  { intros file. apply validateFile_false. intros Hin.
    destruct (Hbad _ Hin) as [Hcase | Hdot].
    - apply Hcase. unfold extensionOf.
      change (toLowerCase ("." ++ toLowerCase (pop (split "." (name file)))))
        with ("." ++ toLowerCase (toLowerCase (pop (split "." (name file))))).
      now rewrite toLowerCase_idempotent.
    - unfold extensionOf in Hdot. cbn in Hdot.
      destruct (toLowerCase (pop (split "." (name file)))); discriminate Hdot. }
  unfold handleFileInput, handleDrop. destruct files as [|file others]; cbn.
  - destruct (disabled props); split; reflexivity.
  - rewrite (Hrej file). destruct (disabled props); split; reflexivity.
Qed.

(** X10 for a list written [.XLSX], [xls], offered [list.xlsx]. *)
Lemma formats_must_be_dotted_lower_case_witness :
  selections (handleFileInput
                {| acceptedFormats := [".XLSX"; "xls"]; label := "Recipients";
                   currentFile := None; disabled := false |}
                [ {| name := "list.xlsx"; size := 9000; Browser.type := "" |} ]) = [].
Proof.
  refine (proj1 (formats_must_be_dotted_lower_case
                   {| acceptedFormats := [".XLSX"; "xls"]; label := "Recipients";
                      currentFile := None; disabled := false |}
                   [ {| name := "list.xlsx"; size := 9000; Browser.type := "" |} ]
                   false _)).
  cbn. intros fmt [<- | [<- | []]]; [left; discriminate | right; reflexivity].
Defined.

End FileAcceptance.

(** ** More on the toast's timers *)
Section ToastReshow.

Import Toast.

(** Showing a message with a positive duration while no exit animation is
    pending. *)
Lemma render_showing (w : World) (m ty : string) (d : nat) :
  settled w -> message w <> m -> m <> "" -> 0 < d -> showing (render m ty d w) m (now w + d).
Proof.
  intros Hset Hnew Hne Hd. rewrite (render_shows_settled w m ty d Hset Hnew Hne).
  assert (Hpos : (0 <? d)%nat = true) by now apply Nat.ltb_lt.
  rewrite Hpos. repeat split; cbn; [exact Hne | lia | eauto].
Qed.

(** Until the auto-close timer is due, time passing changes only the clock. *)
Lemma showing_advance (w : World) (m : string) (closeAt j : nat) :
  showing w m closeAt -> now w + j < closeAt ->
  advance j w = setNow (now w + j) w /\ showing (advance j w) m closeAt.
Proof.
  intros [Hne [Hm [Hnow [id [Hts Hauto]]]]] Hj.
  assert (Hadv : advance j w = setNow (now w + j) w).
  { apply advance_quiet. rewrite Hts. intros t [<- | []]. exact Hj. }
  split; [exact Hadv|]. rewrite Hadv.
  repeat split; cbn; [exact Hne | exact Hm | exact Hj | eauto].
Qed.

(** The whole life of a shown message: rendered until 300 ms after its
    auto-close timer is due, cleared from then on. *)
Lemma showing_lifetime (w : World) (m : string) (closeAt t : nat) :
  showing w m closeAt ->
  message (advance t w) =
  (if (now w + t <? closeAt + exitAnimationMs)%nat then m else "").
Proof.
  intros Hshow. pose proof Hshow as [Hne [Hm [Hnow [id [Hts Hauto]]]]].
  destruct (Nat.lt_ge_cases (now w + t) closeAt) as [Hlt | Hge].
  - destruct (showing_advance w m closeAt t Hshow Hlt) as [Hadv _].
    rewrite Hadv. cbn [message setNow]. rewrite Hm.
    assert (Hin : (now w + t <? closeAt + exitAnimationMs)%nat = true)
      by (apply Nat.ltb_lt; lia).
    now rewrite Hin.
  - set (auto_timer := {| timer_id := id; due := closeAt; callback := AutoClose |}) in *.
    set (w1 := clearTimeout (timer_id auto_timer) (setNow (due auto_timer) w)).
    assert (Hadv : advance t w = advance (now w + t - closeAt) (handleClose w1)).
    { replace t with ((due auto_timer - now w) + (now w + t - closeAt)) at 1
        by (cbn [due auto_timer]; lia).
      rewrite advance_add, (advance_to_timer w auto_timer Hts)
        by (cbn [due auto_timer]; lia).
      reflexivity. }
    assert (Hm1 : message w1 = m) by exact Hm.
    assert (Hts1 : timers w1 = []).
    { unfold w1, clearTimeout. cbn [timers setNow]. rewrite Hts.
      cbn. now rewrite Nat.eqb_refl. }
    destruct (closing w1 (now w + t - closeAt)) as [Hmsg _];
      [now rewrite Hm1 | exact Hts1 |].
    rewrite Hadv, Hmsg, Hm1. unfold exitAnimationMs.
    destruct (Nat.ltb_spec (now w + t - closeAt) 300),
             (Nat.ltb_spec (now w + t) (closeAt + 300)); try lia; reflexivity.
Qed.

(** X11.  A text is shown, with a positive duration, in a toast in which
    no exit animation is pending and which shows another text or none.
    Showing the same text again before the duration has elapsed does not
    restart its timer, even with another type: the message still goes
    300 ms after the duration counted from the first showing. *)
Theorem same_text_again_keeps_the_first_deadline
    (w : World) (m ty ty2 : string) (d j t : nat) :
  settled w -> message w <> m -> m <> "" -> 0 < d -> j < d ->
  message (advance t (render m ty2 d (advance j (render m ty d w)))) =
  (if (j + t <? d + exitAnimationMs)%nat then m else "").
Proof.
  intros Hset Hnew Hne Hd Hj.
  pose proof (render_showing w m ty d Hset Hnew Hne Hd) as Hshow.
  assert (Hnow : now (render m ty d w) = now w)
    by (rewrite (render_shows_settled w m ty d Hset Hnew Hne); reflexivity).
  assert (Hdur : duration (render m ty d w) = d)
    by (rewrite (render_shows_settled w m ty d Hset Hnew Hne); reflexivity).
  destruct (showing_advance _ m (now w + d) j Hshow) as [Hadv Hshow'];
    [rewrite Hnow; lia|].
  set (w1 := advance j (render m ty d w)) in *.
  assert (Hnow1 : now w1 = now w + j) by (rewrite Hadv, <- Hnow; reflexivity).
  assert (Hdur1 : duration w1 = d) by (rewrite Hadv; exact Hdur).
  destruct Hshow' as [_ [Hm1 [Hlt1 [id [Hts1 Hauto1]]]]].
  assert (Hre : showing (render m ty2 d w1) m (now w + d)).
  { unfold render. rewrite Hm1, Hdur1, String.eqb_refl, Nat.eqb_refl. cbn.
    repeat split; [exact Hne | exact Hlt1 | eauto]. }
  rewrite (showing_lifetime _ m (now w + d) t Hre).
  assert (Hnow2 : now (render m ty2 d w1) = now w + j).
  { unfold render. rewrite Hm1, Hdur1, String.eqb_refl, Nat.eqb_refl. exact Hnow1. }
  rewrite Hnow2.
  destruct (Nat.ltb_spec (now w + j + t) (now w + d + exitAnimationMs)),
           (Nat.ltb_spec (j + t) (d + exitAnimationMs)); try lia; reflexivity.
Qed.

(** X11 for a 100 ms toast shown again after 60 ms: gone 400 ms after
    the first showing, that is 340 ms after the second. *)
Lemma same_text_again_keeps_the_first_deadline_witness :
  rendered (advance 339 (render "Sent" "info" 100
                           (advance 60 (render "Sent" "success" 100
                                          (mount "" "" defaultDuration))))) = true
  /\ rendered (advance 340 (render "Sent" "info" 100
                              (advance 60 (render "Sent" "success" 100
                                             (mount "" "" defaultDuration))))) = false.
Proof.
  assert (Hne : "Sent" <> "") by discriminate.
  assert (Hnew : message (mount "" "" defaultDuration) <> "Sent") by discriminate.
  unfold rendered. split.
  - rewrite (same_text_again_keeps_the_first_deadline (mount "" "" defaultDuration)
               "Sent" "success" "info" 100 60 339 (mount_empty_settled defaultDuration) Hnew Hne);
      [reflexivity | lia | lia].
  - rewrite (same_text_again_keeps_the_first_deadline (mount "" "" defaultDuration)
               "Sent" "success" "info" 100 60 340 (mount_empty_settled defaultDuration) Hnew Hne);
      [reflexivity | lia | lia].
Defined.

(** Showing another text over a shown one: the old timer is cleared and,
    with a positive duration, a new one is set. *)
Lemma render_over_showing (w : World) (m m2 ty2 : string) (closeAt d2 : nat) :
  showing w m closeAt -> m2 <> "" -> m2 <> m ->
  message (render m2 ty2 d2 w) = m2
  /\ now (render m2 ty2 d2 w) = now w
  /\ (0 < d2 -> showing (render m2 ty2 d2 w) m2 (now w + d2))
  /\ (d2 = 0 -> timers (render m2 ty2 d2 w) = []).
Proof.
  intros [Hne [Hm [Hnow [id [Hts Hauto]]]]] Hne2 Hdiff.
  destruct w as [n m0 ty0 d0 vis ex auto ts next]. cbn in Hm, Hnow, Hts, Hauto. subst.
  assert (Heq : (m =? m2)%string = false) by (apply String.eqb_neq; congruence).
  destruct m2 as [|c m2]; [contradiction|].
  unfold render. cbn [message duration setProps]. rewrite Heq. cbn [negb orb].
  toast_compute. rewrite Nat.eqb_refl. toast_compute.
  destruct (Nat.ltb_spec 0 d2) as [Hpos | Hzero].
  - split; [reflexivity|]. split; [reflexivity|]. split.
    + intros _. split; [exact Hne2|]. split; [reflexivity|]. split; [cbn; lia|].
      exists next. split; reflexivity.
    + intros ->. inversion Hpos.
  - split; [reflexivity|]. split; [reflexivity|]. split.
    + intros Hd2. exfalso. lia.
    + intros _. reflexivity.
Qed.

(** X12.  A text is shown, with a positive duration, in a toast in which
    no exit animation is pending and which shows another text or none.
    Showing a different text before that duration has elapsed cancels the
    pending auto-close and starts over: with a positive duration the new
    text goes 300 ms after its own duration, counted from its own showing;
    with duration 0 it stays. *)
Theorem different_text_restarts_the_timer
    (w : World) (m ty m2 ty2 : string) (d j d2 t : nat) :
  settled w -> message w <> m -> m <> "" -> 0 < d -> j < d -> m2 <> "" -> m2 <> m ->
  (0 < d2 ->
     message (advance t (render m2 ty2 d2 (advance j (render m ty d w)))) =
     (if (t <? d2 + exitAnimationMs)%nat then m2 else ""))
  /\ message (advance t (render m2 ty2 0 (advance j (render m ty d w)))) = m2.
Proof.
  intros Hset Hnew Hne Hd Hj Hne2 Hdiff.
  pose proof (render_showing w m ty d Hset Hnew Hne Hd) as Hshow.
  assert (Hnow : now (render m ty d w) = now w)
    by (rewrite (render_shows_settled w m ty d Hset Hnew Hne); reflexivity).
  destruct (showing_advance _ m (now w + d) j Hshow) as [_ Hshow'];
    [rewrite Hnow; lia|].
  set (w1 := advance j (render m ty d w)) in *.
  split.
  - intros Hd2.
    destruct (render_over_showing w1 m m2 ty2 (now w + d) d2 Hshow' Hne2 Hdiff)
      as [_ [Hnow2 [Hre _]]].
    rewrite (showing_lifetime _ m2 (now w1 + d2) t (Hre Hd2)), Hnow2.
    destruct (Nat.ltb_spec (now w1 + t) (now w1 + d2 + exitAnimationMs)),
             (Nat.ltb_spec t (d2 + exitAnimationMs)); try lia; reflexivity.
  - destruct (render_over_showing w1 m m2 ty2 (now w + d) 0 Hshow' Hne2 Hdiff)
      as [Hm2 [_ [_ Hts]]].
    rewrite advance_quiet.
    + exact Hm2.
    + rewrite (Hts eq_refl). intros t' [].
Qed.

(** X12 for a 100 ms toast replaced after 60 ms by a 200 ms one: the
    second is gone 500 ms after its own showing. *)
Lemma different_text_restarts_the_timer_witness :
  rendered (advance 499 (render "Done" "success" 200
                           (advance 60 (render "Sent" "success" 100
                                          (mount "" "" defaultDuration))))) = true
  /\ rendered (advance 500 (render "Done" "success" 200
                              (advance 60 (render "Sent" "success" 100
                                             (mount "" "" defaultDuration))))) = false.
Proof.
  assert (Hne : "Sent" <> "") by discriminate.
  assert (Hnew : message (mount "" "" defaultDuration) <> "Sent") by discriminate.
  assert (Hne2 : "Done" <> "") by discriminate.
  assert (Hdiff : "Done" <> "Sent") by discriminate.
  unfold rendered. split.
  - rewrite (proj1 (different_text_restarts_the_timer (mount "" "" defaultDuration)
                      "Sent" "success" "Done" "success" 100 60 200 499
                      (mount_empty_settled defaultDuration) Hnew Hne (Nat.lt_0_succ 99)
                      (Nat.lt_le_trans 60 61 100 (Nat.lt_succ_diag_r 60) ltac:(lia))
                      Hne2 Hdiff) (Nat.lt_0_succ 199)).
    reflexivity.
  - rewrite (proj1 (different_text_restarts_the_timer (mount "" "" defaultDuration)
                      "Sent" "success" "Done" "success" 100 60 200 500
                      (mount_empty_settled defaultDuration) Hnew Hne (Nat.lt_0_succ 99)
                      (Nat.lt_le_trans 60 61 100 (Nat.lt_succ_diag_r 60) ltac:(lia))
                      Hne2 Hdiff) (Nat.lt_0_succ 199)).
    reflexivity.
Defined.

Lemma advance_then_tick (k : nat) (w : World) :
  (forall t, In t (timers w) -> now w + k < due t) ->
  advance (S k) w = tick (setNow (now w + k) w).
Proof.
  intros Hlate. replace (S k) with (k + 1) by lia.
  rewrite advance_add, (advance_quiet k w) by exact Hlate. reflexivity.
Qed.

(** A text shown while the previous one is in its exit animation. *)
Lemma shown_during_exit_animation
    (w : World) (m2 ty2 : string) (d2 j t : nat) :
  message w <> "" -> timers w = [] ->
  (forall id, autoCloseTimer w = Some id -> id < nextTimerId w) ->
  m2 <> "" -> m2 <> message w ->
  j < exitAnimationMs -> (d2 = 0 \/ exitAnimationMs <= j + d2) ->
  message (advance t (render m2 ty2 d2 (advance j (handleClose w)))) =
  (if (j + t <? exitAnimationMs)%nat then m2 else "").
Proof.
  intros Hmsg Hts Hwf Hne2 Hdiff Hj Hd2.
  destruct w as [n m ty d vis ex auto ts next]. cbn in Hmsg, Hts, Hwf, Hdiff. subst ts.
  assert (Heq : (m =? m2)%string = false) by (apply String.eqb_neq; congruence).
  destruct m2 as [|c m2]; [contradiction|].
  set (h := handleClose _).
  assert (Hnowh : now h = n) by reflexivity.
  rewrite (advance_quiet j h)
    by (intros t' [<- | []]; cbn; unfold exitAnimationMs in *; lia).
  assert (Hr : render (String c m2) ty2 d2 (setNow (now h + j) h) =
               {| now := n + j; message := String c m2; type := ty2; duration := d2;
                  isVisible := true; isExiting := false;
                  autoCloseTimer := if (0 <? d2)%nat then Some (S next) else None;
                  timers :=
                    {| timer_id := next; due := n + exitAnimationMs;
                       callback := FinishClose |}
                    :: (if (0 <? d2)%nat
                        then [ {| timer_id := S next; due := n + j + d2;
                                  callback := AutoClose |} ]
                        else []);
                  nextTimerId := if (0 <? d2)%nat then S (S next) else S next |}).
  { unfold render.
    set (base := setNow _ h).
    assert (Hmb : message base = m) by reflexivity.
    rewrite Hmb, Heq. cbn [negb orb]. subst base h.
    destruct auto as [id0|]; [specialize (Hwf id0 eq_refl)|];
      destruct (Nat.ltb_spec 0 d2); toast_compute; decide_nat; toast_compute;
      reflexivity. }
  rewrite Hr. clear Hr h Hnowh.
  set (r := Build_World _ _ _ _ _ _ _ _ _).
  assert (Hlate : forall k, n + j + k < n + exitAnimationMs ->
                            forall t', In t' (timers r) -> now r + k < due t').
  { intros k Hk t' Ht'. cbn [timers r now] in Ht' |- *.
    destruct Ht' as [<- | Ht']; [exact Hk|].
    destruct (Nat.ltb_spec 0 d2) as [Hpos | Hzero]; [|destruct Ht'].
    destruct Ht' as [<- | []]. cbn [due]. lia. }
  destruct (Nat.ltb_spec (j + t) exitAnimationMs) as [Hlt | Hge].
  - rewrite advance_quiet by (apply Hlate; lia). reflexivity.
  - replace t with (S (exitAnimationMs - 1 - j) + (t - (exitAnimationMs - j)))
      by (unfold exitAnimationMs in *; lia).
    rewrite advance_add, (advance_then_tick (exitAnimationMs - 1 - j) r)
      by (apply Hlate; unfold exitAnimationMs in *; lia).
    assert (Hdone : message (tick (setNow (now r + (exitAnimationMs - 1 - j)) r)) = ""
                    /\ timers (tick (setNow (now r + (exitAnimationMs - 1 - j)) r)) = []).
    { subst r. unfold tick. unfold exitAnimationMs in *.
      destruct (Nat.ltb_spec 0 d2) as [Hpos | Hzero];
        [destruct (Nat.eq_dec (j + d2) 300) as [Htie | Hlater]| ];
        cbn [filter timers setNow now due]; decide_nat; cbn [filter];
        toast_compute; decide_nat; toast_compute; decide_nat; toast_compute;
        split; reflexivity. }
    destruct Hdone as [Hm Ht].
    rewrite advance_quiet by (rewrite Ht; intros t' []).
    exact Hm.
Qed.

(** X13.  The timeout that ends the exit animation is never cancelled.  A
    first text is shown, with a positive duration, in a toast in which no
    exit animation is pending and which shows another text or none.  A
    different text shown [j] ms into the exit animation that follows the
    auto-close of the first one is cleared when that animation ends,
    300 - j ms after it was shown, whatever its own duration is (0, or any
    duration that does not expire before the animation ends). *)
Theorem text_shown_during_exit_animation_is_cut_short
    (w : World) (m ty m2 ty2 : string) (d d2 j t : nat) :
  settled w -> message w <> m -> m <> "" -> 0 < d -> m2 <> "" -> m2 <> m ->
  j < exitAnimationMs -> (d2 = 0 \/ exitAnimationMs <= j + d2) ->
  message (advance t (render m2 ty2 d2 (advance (d + j) (render m ty d w)))) =
  (if (j + t <? exitAnimationMs)%nat then m2 else "").
Proof.
  intros Hset Hnew Hne Hd Hne2 Hdiff Hj Hd2.
  rewrite advance_add, (render_shows_settled w m ty d Hset Hnew Hne).
  assert (Hpos : (0 <? d)%nat = true) by now apply Nat.ltb_lt.
  rewrite Hpos.
  set (auto_timer := {| timer_id := nextTimerId w; due := now w + d;
                        callback := AutoClose |}).
  set (w0 := Build_World _ _ _ _ _ _ _ _ _).
  replace d with (due auto_timer - now w0) at 1 by (cbn [due auto_timer now w0]; lia).
  rewrite (advance_to_timer w0 auto_timer eq_refl) by (cbn [due auto_timer now w0]; lia).
  cbn [callback auto_timer run].
  set (w1 := clearTimeout _ _).
  assert (Hts1 : timers w1 = []).
  { unfold w1, w0. toast_compute. now rewrite Nat.eqb_refl. }
  apply shown_during_exit_animation; try assumption.
  intros id Hid. unfold w1, w0 in Hid |- *. cbn in Hid |- *.
  injection Hid as <-. lia.
Qed.

(** X13 for a 100 ms toast followed, 50 ms into its exit animation, by a
    text shown with the default duration: it lasts 250 ms. *)
Lemma text_shown_during_exit_animation_is_cut_short_witness :
  rendered (advance 249 (render "Done" "success" defaultDuration
                           (advance (100 + 50) (render "Sent" "success" 100
                                                  (mount "" "" defaultDuration))))) = true
  /\ rendered (advance 250 (render "Done" "success" defaultDuration
                              (advance (100 + 50) (render "Sent" "success" 100
                                                     (mount "" "" defaultDuration))))) = false.
Proof.
  assert (Hne : "Sent" <> "") by discriminate.
  assert (Hnew : message (mount "" "" defaultDuration) <> "Sent") by discriminate.
  assert (Hne2 : "Done" <> "") by discriminate.
  assert (Hdiff : "Done" <> "Sent") by discriminate.
  assert (Hj : 50 < exitAnimationMs) by (apply Nat.ltb_lt; reflexivity).
  assert (Hd2 : defaultDuration = 0 \/ exitAnimationMs <= 50 + defaultDuration)
    by (right; apply Nat.leb_le; reflexivity).
  unfold rendered. split.
  - rewrite (text_shown_during_exit_animation_is_cut_short (mount "" "" defaultDuration)
               "Sent" "success" "Done" "success" 100 defaultDuration 50 249
               (mount_empty_settled defaultDuration) Hnew Hne (Nat.lt_0_succ 99) Hne2 Hdiff Hj Hd2).
    reflexivity.
  - rewrite (text_shown_during_exit_animation_is_cut_short (mount "" "" defaultDuration)
               "Sent" "success" "Done" "success" 100 defaultDuration 50 250
               (mount_empty_settled defaultDuration) Hnew Hne (Nat.lt_0_succ 99) Hne2 Hdiff Hj Hd2).
    reflexivity.
Defined.

(** X14.  A text is shown, with a duration, in a toast in which no exit
    animation is pending and which shows another text or none.  A click on
    its close button more than 300 ms before its auto-close is due clears
    the message 300 ms after the click and leaves no timer behind: the
    pending auto-close is cancelled. *)
Theorem manual_close_cancels_auto_close
    (w : World) (m ty : string) (d j t : nat) :
  settled w -> message w <> m -> m <> "" -> j + exitAnimationMs < d ->
  message (advance t (handleClose (advance j (render m ty d w)))) =
    (if (t <? exitAnimationMs)%nat then m else "")
  /\ (exitAnimationMs <= t ->
      timers (advance t (handleClose (advance j (render m ty d w)))) = []).
Proof.
  intros Hset Hnew Hne Hd.
  rewrite (render_shows_settled w m ty d Hset Hnew Hne).
  assert (Hpos : (0 <? d)%nat = true) by (apply Nat.ltb_lt; lia).
  rewrite Hpos.
  destruct w as [n m0 ty0 d0 vis ex auto ts next]. cbn [now nextTimerId].
  destruct m as [|c m]; [contradiction|].
  set (w0 := Build_World _ _ _ _ _ _ _ _ _).
  rewrite (advance_quiet j w0)
    by (intros t' [<- | []]; cbn; unfold exitAnimationMs in *; lia).
  set (h := handleClose _).
  assert (Hlate : forall k, k < exitAnimationMs ->
                            forall t', In t' (timers h) -> now h + k < due t').
  { intros k Hk t' Ht'. unfold h, w0 in Ht' |- *. cbn in Ht' |- *.
    unfold exitAnimationMs in *. destruct Ht' as [<- | [<- | []]]; cbn; lia. }
  destruct (Nat.ltb_spec t exitAnimationMs) as [Hlt | Hge].
  - split; [|intros Hle; lia].
    rewrite advance_quiet by (apply Hlate; exact Hlt). reflexivity.
  - replace t with (S (exitAnimationMs - 1) + (t - exitAnimationMs))
      by (unfold exitAnimationMs in *; lia).
    rewrite advance_add, (advance_then_tick (exitAnimationMs - 1) h)
      by (apply Hlate; unfold exitAnimationMs; lia).
    assert (Hdone : message (tick (setNow (now h + (exitAnimationMs - 1)) h)) = ""
                    /\ timers (tick (setNow (now h + (exitAnimationMs - 1)) h)) = []).
    { subst h w0. unfold tick. unfold exitAnimationMs in *.
      cbn [filter timers setNow now due handleClose setTimeout setState fst app];
        decide_nat; cbn [filter];
        toast_compute; decide_nat; toast_compute; decide_nat; toast_compute;
        split; reflexivity. }
    destruct Hdone as [Hm Ht].
    rewrite advance_quiet by (rewrite Ht; intros t' []).
    split; [exact Hm | intros _; exact Ht].
Qed.

(** X14 for a toast with the default duration closed by hand after one
    second: gone 300 ms later, with nothing pending. *)
Lemma manual_close_cancels_auto_close_witness :
  rendered (advance 299 (handleClose (advance 1000 (render "Sent" "success" defaultDuration
                                                      (mount "" "" defaultDuration))))) = true
  /\ rendered (advance 300 (handleClose (advance 1000 (render "Sent" "success" defaultDuration
                                                         (mount "" "" defaultDuration))))) = false.
Proof.
  assert (Hne : "Sent" <> "") by discriminate.
  assert (Hnew : message (mount "" "" defaultDuration) <> "Sent") by discriminate.
  assert (Hd : 1000 + exitAnimationMs < defaultDuration) by (apply Nat.ltb_lt; reflexivity).
  unfold rendered. split.
  - rewrite (proj1 (manual_close_cancels_auto_close (mount "" "" defaultDuration)
                      "Sent" "success" defaultDuration 1000 299
                      (mount_empty_settled defaultDuration) Hnew Hne Hd)).
    reflexivity.
  - rewrite (proj1 (manual_close_cancels_auto_close (mount "" "" defaultDuration)
                      "Sent" "success" defaultDuration 1000 300
                      (mount_empty_settled defaultDuration) Hnew Hne Hd)).
    reflexivity.
Defined.

End ToastReshow.

Section ToastList.

Import UseToast.

Lemma filter_filter {A} (f g : A -> bool) (l : list A) :
  filter f (filter g l) = filter (fun x => g x && f x) l.
Proof.
  induction l as [|x l IH]; [reflexivity|].
  cbn. destruct (g x); cbn; [destruct (f x)|]; now rewrite IH.
Qed.

(** What a run of removals leaves of the list. *)
Lemma removals_toasts (rs : list Removal) (h : Hook) :
  toasts (fold_left (fun h' r => removeToast (target r) h') rs h) =
  filter (fun toast => negb (existsb (fun r => (target r =? id toast)%nat) rs)) (toasts h).
Proof.
  revert h. induction rs as [|r rs IH]; intros h.
  - cbn. symmetry. apply forallb_filter_id. now apply forallb_forall.
  - cbn [fold_left]. rewrite IH. cbn [removeToast toasts]. rewrite filter_filter.
    apply filter_ext. intros toast. cbn [existsb].
    rewrite (Nat.eqb_sym (target r) (id toast)), negb_orb. reflexivity.
Qed.

Lemma removals_frame (rs : list Removal) (h : Hook) :
  now (fold_left (fun h' r => removeToast (target r) h') rs h) = now h
  /\ timers (fold_left (fun h' r => removeToast (target r) h') rs h) = timers h.
Proof.
  revert h. induction rs as [|r rs IH]; intros h; [now split|].
  cbn [fold_left]. destruct (IH (removeToast (target r) h)) as [-> ->]. now split.
Qed.

Lemma tick_now (h : Hook) : now (tick h) = S (now h).
Proof. unfold tick. now rewrite (proj1 (removals_frame _ _)). Qed.

Lemma tick_timers (h : Hook) (r : Removal) :
  In r (timers (tick h)) <-> In r (timers h) /\ S (now h) < due r.
Proof.
  unfold tick. rewrite (proj2 (removals_frame _ _)). cbn [timers].
  rewrite filter_In. destruct (Nat.leb_spec (due r) (S (now h))); cbn; intuition (try lia; try discriminate).
Qed.

Lemma tick_toasts (h : Hook) (x : ToastItem) :
  In x (toasts (tick h)) <->
  In x (toasts h)
  /\ forall r, In r (timers h) -> due r <= S (now h) -> target r <> id x.
Proof.
  unfold tick. rewrite removals_toasts. cbn [toasts]. rewrite filter_In.
  split; intros [Hin H]; split; try exact Hin.
  - intros r Hr Hdue Heq.
    apply negb_true_iff in H.
    assert (Hex : existsb (fun r0 => (target r0 =? id x)%nat)
                    (filter (fun r0 => (due r0 <=? S (now h))%nat) (timers h)) = true).
    { apply existsb_exists. exists r. split.
      - apply filter_In. split; [exact Hr | now apply Nat.leb_le].
      - now apply Nat.eqb_eq. }
    congruence.
  - apply negb_true_iff. apply not_true_is_false. intros Hex.
    apply existsb_exists in Hex. destruct Hex as [r [Hr Heq]].
    apply filter_In in Hr. destruct Hr as [Hr Hdue].
    apply (H r Hr); [now apply Nat.leb_le | now apply Nat.eqb_eq].
Qed.

(** What is listed after time has passed: what was listed and is the
    target of no timeout that came due. *)
Lemma advance_toasts (k : nat) (h : Hook) (x : ToastItem) :
  In x (toasts (advance (S k) h)) <->
  In x (toasts h)
  /\ forall r, In r (timers h) -> due r <= now h + S k -> target r <> id x.
Proof.
  revert h. induction k as [|k IH]; intros h.
  - cbn [advance]. rewrite tick_toasts. now rewrite Nat.add_1_r.
  - change (advance (S (S k)) h) with (advance (S k) (tick h)).
    rewrite IH, tick_toasts, tick_now. split.
    + intros [[Hin Hnow] Hlater]. split; [exact Hin|].
      intros r Hr Hdue.
      destruct (Nat.le_gt_cases (due r) (S (now h))) as [Hle | Hgt].
      * now apply Hnow.
      * apply Hlater; [apply tick_timers; now split | lia].
    + intros [Hin H]. repeat split; [exact Hin | |].
      * intros r Hr Hdue. apply H; [exact Hr | lia].
      * intros r Hr Hdue. apply tick_timers in Hr. apply H; [tauto | lia].
Qed.

(** X15.  A toast's id is the millisecond in which it was shown, and its
    timeout removes every toast with that id.  Two toasts shown in the same
    millisecond are both appended to the list, in order and under the same
    id; when the first one's duration has elapsed no toast with that id is
    listed any more, whatever the second one's duration is, also when it is
    0 and the toast was meant to stay. *)
Theorem toasts_shown_in_one_millisecond_leave_together
    (h : Hook) (m1 ty1 m2 ty2 : string) (d1 d2 k : nat) :
  0 < d1 -> d1 <= k ->
  toasts (showToast m2 ty2 d2 (showToast m1 ty1 d1 h)) =
    (toasts h
     ++ [ {| id := now h; message := m1; type := ty1; duration := d1 |};
          {| id := now h; message := m2; type := ty2; duration := d2 |} ])%list
  /\ forall x, In x (toasts (advance k (showToast m2 ty2 d2 (showToast m1 ty1 d1 h)))) ->
               In x (toasts h) /\ id x <> now h.
Proof.
  intros Hd Hk. split.
  - cbn. now rewrite <- app_assoc.
  - destruct k as [|k]; [lia|].
    intros x Hx. apply advance_toasts in Hx. destruct Hx as [Hin H].
    assert (Hid : id x <> now h).
    { intros Heq. apply (H {| due := now h + d1; target := now h |}).
      + assert (Hpos : (0 <? d1)%nat = true) by now apply Nat.ltb_lt.
        cbn [timers showToast now]. rewrite Hpos.
        destruct (0 <? d2)%nat; [apply in_or_app; left|]; apply in_or_app; right; now left.
      + cbn. lia.
      + cbn. now symmetry. }
    split; [|exact Hid].
    cbn [toasts showToast] in Hin. rewrite <- app_assoc in Hin.
    apply in_app_or in Hin. destruct Hin as [Hin | [<- | [<- | []]]];
      [exact Hin | |]; exfalso; apply Hid; reflexivity.
Qed.

(** X15 for a toast of one second and a persistent one shown in the same
    millisecond, 7, in an empty container: after the second nothing is
    listed. *)
Lemma toasts_shown_in_one_millisecond_leave_together_witness :
  toasts (showToast "Keep" "info" 0 (showToast "Sent" "success" 1000 (initial 7))) =
    [ {| id := 7; message := "Sent"; type := "success"; duration := 1000 |};
      {| id := 7; message := "Keep"; type := "info"; duration := 0 |} ]
  /\ forall x,
       In x (toasts (advance 1000 (showToast "Keep" "info" 0
                                     (showToast "Sent" "success" 1000 (initial 7))))) ->
       False.
Proof.
  destruct (toasts_shown_in_one_millisecond_leave_together (initial 7)
              "Sent" "success" "Keep" "info" 1000 0 1000 (Nat.lt_0_succ 999) (le_n 1000))
    as [Hshown Hgone].
  split; [exact Hshown|].
  intros x Hx. exact (proj1 (Hgone x Hx)).
Defined.

(** X16.  A toast whose id no pending timeout targets is listed for
    exactly its duration, with no exit delay, and for good when its
    duration is 0. *)
Theorem listed_toast_lives_for_its_duration
    (h : Hook) (m ty : string) (d k : nat) :
  (forall r, In r (timers h) -> target r <> now h) ->
  In {| id := now h; message := m; type := ty; duration := d |}
     (toasts (advance k (showToast m ty d h)))
  <-> d = 0 \/ k < d.
Proof.
  intros Hfresh. destruct k as [|k].
  - cbn. split.
    + intros _. destruct d; [now left | right; lia].
    + intros _. apply in_or_app. right. now left.
  - rewrite advance_toasts. cbn [toasts timers now showToast id]. split.
    + intros [_ H]. destruct d as [|d]; [now left | right].
      destruct (Nat.lt_ge_cases (S k) (S d)) as [Hlt | Hge]; [exact Hlt | exfalso].
      apply (H {| due := now h + S d; target := now h |}).
      * cbn. apply in_or_app. right. now left.
      * cbn. lia.
      * reflexivity.
    + intros Hd. split; [apply in_or_app; right; now left|].
      intros r Hr Hdue.
      destruct (Nat.ltb_spec 0 d) as [Hpos | Hzero].
      * apply in_app_or in Hr. destruct Hr as [Hr | [<- | []]]; [now apply Hfresh|].
        cbn in Hdue. lia.
      * now apply Hfresh.
Qed.

(** X16 for the first toast of a container, shown for 5 seconds. *)
Lemma listed_toast_lives_for_its_duration_witness :
  In {| id := 7; message := "Sent"; type := "success"; duration := 5000 |}
     (toasts (advance 4999 (showToast "Sent" "success" 5000 (initial 7)))).
Proof.
  assert (Hfresh : forall r, In r (timers (initial 7)) -> target r <> now (initial 7))
    by (intros r []).
  assert (Hlt : 5000 = 0 \/ 4999 < 5000) by (right; apply le_n).
  exact (proj2 (listed_toast_lives_for_its_duration (initial 7) "Sent" "success" 5000 4999
                  Hfresh) Hlt).
Defined.

End ToastList.
